(** * uvbump: version bumping for pyproject.toml projects

    A shallow embedding of [src/uvbump/_core.py] together with the parts of
    its two collaborators that the core relies on: [packaging.version.Version]
    (PEP 440 parsing, printing and ordering) and the few [git.Repo] operations
    used by [check_git_status] and [update_version].

    Python strings are modelled as [string] (code points below 256), Python
    integers (always non-negative here) as [nat], tuples of a fixed shape as
    products, tuples of variable length as lists, and [None] as [option]. *)

From Stdlib Require Import Bool Arith Lia List Ascii String.
From Stdlib Require Import Decimal DecimalString DecimalNat.
Import ListNotations.

Local Open Scope list_scope.
Local Open Scope string_scope.
Local Open Scope nat_scope.

(* ================================================================== *)
(** * Characters and strings *)

Module Py.

(** Code-point tests used by the regular expression of [packaging]. *)

Definition isdigit (c : ascii) : bool :=
  let n := nat_of_ascii c in (48 <=? n) && (n <=? 57).

Definition islower (c : ascii) : bool :=
  let n := nat_of_ascii c in (97 <=? n) && (n <=? 122).

Definition isupper (c : ascii) : bool :=
  let n := nat_of_ascii c in (65 <=? n) && (n <=? 90).

(** [\s] on a [str] pattern: the Unicode white space below 256. *)
Definition isspace (c : ascii) : bool :=
  let n := nat_of_ascii c in
  ((9 <=? n) && (n <=? 13)) || ((28 <=? n) && (n <=? 32))
  || (n =? 133) || (n =? 160).

Definition lower_char (c : ascii) : ascii :=
  if isupper c then ascii_of_nat (nat_of_ascii c + 32) else c.

(** [str.lower()] *)
Fixpoint lower (s : string) : string :=
  match s with
  | EmptyString => EmptyString
  | String c s' => String (lower_char c) (lower s')
  end.

(** [all(c.isdigit() for c in s)] *)
Fixpoint all_digits (s : string) : bool :=
  match s with
  | EmptyString => true
  | String c s' => isdigit c && all_digits s'
  end.

(** [str.isdigit()]: non-empty and only digits. *)
Definition str_isdigit (s : string) : bool :=
  match s with
  | EmptyString => false
  | _ => all_digits s
  end.

(** [int(s)] for a string of decimal digits, and [str(n)]. *)
Definition int (s : string) : nat :=
  match NilEmpty.uint_of_string s with
  | Some d => Nat.of_uint d
  | None => 0
  end.

Definition str (n : nat) : string :=
  NilEmpty.string_of_uint (Nat.to_uint n).

(** [sep.join(parts)] *)
Fixpoint join (sep : string) (parts : list string) : string :=
  match parts with
  | [] => EmptyString
  | [p] => p
  | p :: ps => p ++ sep ++ join sep ps
  end.

(** [s.split(sep)] for a one-character separator, and more generally
    [re.split] on a character class: the list is never empty. *)
Fixpoint split_on (is_sep : ascii -> bool) (s : string) : list string :=
  match s with
  | EmptyString => [EmptyString]
  | String c s' =>
      if is_sep c then EmptyString :: split_on is_sep s'
      else match split_on is_sep s' with
           | [] => [String c EmptyString]
           | p :: ps => String c p :: ps
           end
  end.

Definition split (sep : ascii) (s : string) : list string :=
  split_on (Ascii.eqb sep) s.

(** Truth value of an optional string ([None] and [""] are false). *)
Definition truthy (o : option string) : bool :=
  match o with
  | None => false
  | Some EmptyString => false
  | Some _ => true
  end.

(** [a or b] on optional strings. *)
Definition or_else (a b : option string) : option string :=
  if truthy a then a else b.

End Py.

(* ================================================================== *)
(** * Regular expressions with named groups

    The fragment of Python's [re] that [packaging] uses: a backtracking
    matcher with greedy quantifiers, ordered alternation and named groups,
    compiled with [re.IGNORECASE]. *)

Module Re.

Inductive regex : Type :=
| Empty
| Chr (c : ascii)                  (* a literal, compared ignoring case *)
| Cls (p : ascii -> bool)          (* a character class *)
| Cat (r1 r2 : regex)
| Alt (r1 r2 : regex)              (* r1|r2, r1 tried first *)
| Opt (r : regex)                  (* r?  *)
| Star (r : regex)                 (* r*  *)
| Group (name : string) (r : regex)
| Eos.                             (* $   *)

Definition Plus (r : regex) : regex := Cat r (Star r).

(** A literal word. *)
Fixpoint Word (w : string) : regex :=
  match w with
  | EmptyString => Empty
  | String c w' => Cat (Chr c) (Word w')
  end.

(** The groups captured so far, most recent binding first. *)
Definition groups := list (string * string).

Fixpoint group (g : groups) (name : string) : option string :=
  match g with
  | [] => None
  | (n, v) :: g' => if String.eqb n name then Some v else group g' name
  end.

Definition cont := string -> groups -> option groups.

Definition chr_eqb (a c : ascii) : bool :=
  Ascii.eqb (Py.lower_char a) (Py.lower_char c).

(** Greedy iteration: at most [n] rounds, each of which has to consume
    input; [n] is the length of the subject, so the bound is never hit. *)
Fixpoint star_loop (m : string -> groups -> cont -> option groups)
    (k : cont) (n : nat) (s : string) (g : groups) : option groups :=
  match n with
  | 0 => k s g
  | S n' =>
      match m s g (fun s' g' =>
                     if String.length s' <? String.length s
                     then star_loop m k n' s' g' else None) with
      | Some r => Some r
      | None => k s g
      end
  end.

Fixpoint rmatch (r : regex) (s : string) (g : groups) (k : cont)
    {struct r} : option groups :=
  match r with
  | Empty => k s g
  | Chr c =>
      match s with
      | String a s' => if chr_eqb a c then k s' g else None
      | EmptyString => None
      end
  | Cls p =>
      match s with
      | String a s' => if p a then k s' g else None
      | EmptyString => None
      end
  | Cat r1 r2 => rmatch r1 s g (fun s' g' => rmatch r2 s' g' k)
  | Alt r1 r2 =>
      match rmatch r1 s g k with
      | Some x => Some x
      | None => rmatch r2 s g k
      end
  | Opt r1 =>
      match rmatch r1 s g k with
      | Some x => Some x
      | None => k s g
      end
  | Star r1 => star_loop (rmatch r1) k (String.length s) s g
  | Group name r1 =>
      rmatch r1 s g (fun s' g' =>
        k s' ((name, substring 0 (String.length s - String.length s') s) :: g'))
  | Eos =>
      match s with
      | EmptyString => k s g
      | String a EmptyString => if Ascii.eqb a "010"%char then k s g else None
      | _ => None
      end
  end.

(** [pattern.search(s)] for a pattern anchored with [^]: the groups of the
    first successful match from position 0. *)
Definition search (r : regex) (s : string) : option groups :=
  rmatch r s [] (fun _ g => Some g).

End Re.

(* ================================================================== *)
(** * [packaging.version]

    The third-party class that [_core.py] uses for every version value.
    The pattern, the constructor, the properties, [__str__] and the sort
    key follow the library's [version.py]. *)

Module Packaging.
Import Re.

Definition digit : regex := Cls Py.isdigit.

(** [[-_\.]] *)
Definition is_sep (c : ascii) : bool :=
  Ascii.eqb c "-" || Ascii.eqb c "_" || Ascii.eqb c ".".
Definition sep : regex := Cls is_sep.

(** [[a-z0-9]] under [re.IGNORECASE] *)
Definition is_alnum (c : ascii) : bool :=
  Py.islower c || Py.isupper c || Py.isdigit c.
Definition alnum : regex := Cls is_alnum.

Definition space : regex := Cls Py.isspace.

Fixpoint cat (rs : list regex) : regex :=
  match rs with
  | [] => Empty
  | [r] => r
  | r :: rs' => Cat r (cat rs')
  end.

Fixpoint words (ws : list string) : regex :=
  match ws with
  | [] => Cls (fun _ => false)
  | [w] => Word w
  | w :: ws' => Alt (Word w) (words ws')
  end.

Definition epoch_re : regex :=
  Opt (Cat (Group "epoch" (Plus digit)) (Chr "!")).

Definition release_re : regex :=
  Group "release" (Cat (Plus digit) (Star (Cat (Chr ".") (Plus digit)))).

Definition pre_re : regex :=
  Opt (Group "pre"
    (cat [Opt sep;
          Group "pre_l"
            (words ["alpha"; "a"; "beta"; "b"; "preview"; "pre"; "c"; "rc"]);
          Opt sep;
          Opt (Group "pre_n" (Plus digit))])).

Definition post_re : regex :=
  Opt (Group "post"
    (Alt (Cat (Chr "-") (Group "post_n1" (Plus digit)))
         (cat [Opt sep;
               Group "post_l" (words ["post"; "rev"; "r"]);
               Opt sep;
               Opt (Group "post_n2" (Plus digit))]))).

Definition dev_re : regex :=
  Opt (Group "dev"
    (cat [Opt sep;
          Group "dev_l" (Word "dev");
          Opt sep;
          Opt (Group "dev_n" (Plus digit))])).

Definition local_re : regex :=
  Opt (Cat (Chr "+")
           (Group "local" (Cat (Plus alnum) (Star (Cat sep (Plus alnum)))))).

Definition VERSION_PATTERN : regex :=
  cat [Opt (Chr "v"); epoch_re; release_re; pre_re; post_re; dev_re; local_re].

(** [re.compile(r"^\s*" + VERSION_PATTERN + r"\s*$", VERBOSE | IGNORECASE)] *)
Definition _regex : regex :=
  cat [Star space; VERSION_PATTERN; Star space; Eos].

(** A segment of a local version label: an [int] or a lower-cased [str]. *)
Inductive local_part : Type :=
| LInt (n : nat)
| LStr (s : string).

(** The named tuple [_Version]; a [Version] object is determined by it. *)
Record _Version : Type := mk_Version {
  epoch : nat;
  release : list nat;
  dev : option (string * nat);
  pre : option (string * nat);
  post : option (string * nat);
  local : option (list local_part)
}.

Definition Version : Type := _Version.

Definition _parse_letter_version (letter number : option string)
    : option (string * nat) :=
  if Py.truthy letter then
    match letter with
    | Some l =>
        let number := match number with None => 0 | Some n => Py.int n end in
        let l := Py.lower l in
        let l :=
          if String.eqb l "alpha" then "a"
          else if String.eqb l "beta" then "b"
          else if String.eqb l "c" || String.eqb l "pre"
                  || String.eqb l "preview" then "rc"
          else if String.eqb l "rev" || String.eqb l "r" then "post"
          else l in
        Some (l, number)
    | None => None
    end
  else if Py.truthy number then
    match number with
    | Some n => Some ("post", Py.int n)
    | None => None
    end
  else None.

Definition _parse_local_version (local : option string)
    : option (list local_part) :=
  match local with
  | Some l =>
      Some (map (fun part =>
                   if Py.str_isdigit part then LInt (Py.int part)
                   else LStr (Py.lower part))
                (Py.split_on is_sep l))
  | None => None
  end.

(** [Version(version)]; [None] stands for raising [InvalidVersion]. *)
Definition parse (version : string) : option Version :=
  match search _regex version with
  | None => None
  | Some m =>
      Some {| epoch := if Py.truthy (group m "epoch")
                       then match group m "epoch" with
                            | Some e => Py.int e
                            | None => 0
                            end
                       else 0;
              release := match group m "release" with
                         | Some r => map Py.int (Py.split "." r)
                         | None => []
                         end;
              pre := _parse_letter_version (group m "pre_l") (group m "pre_n");
              post := _parse_letter_version (group m "post_l")
                        (Py.or_else (group m "post_n1") (group m "post_n2"));
              dev := _parse_letter_version (group m "dev_l") (group m "dev_n");
              local := _parse_local_version (group m "local") |}
  end.

(** ** Properties *)

Definition major (v : Version) : nat := nth 0 (release v) 0.
Definition minor (v : Version) : nat := nth 1 (release v) 0.
Definition micro (v : Version) : nat := nth 2 (release v) 0.

Definition is_prerelease (v : Version) : bool :=
  match dev v, pre v with
  | None, None => false
  | _, _ => true
  end.

Definition epoch_str (v : Version) : string :=
  if epoch v =? 0 then "" else Py.str (epoch v) ++ "!".

Definition release_str (v : Version) : string :=
  Py.join "." (map Py.str (release v)).

Definition base_version (v : Version) : string :=
  epoch_str v ++ release_str v.

Definition local_part_str (p : local_part) : string :=
  match p with
  | LInt n => Py.str n
  | LStr s => s
  end.

(** [__str__] *)
Definition to_str (v : Version) : string :=
  epoch_str v ++ release_str v
  ++ match pre v with Some (l, n) => l ++ Py.str n | None => "" end
  ++ match post v with Some (_, n) => ".post" ++ Py.str n | None => "" end
  ++ match dev v with Some (_, n) => ".dev" ++ Py.str n | None => "" end
  ++ match local v with
     | Some ps => "+" ++ Py.join "." (map local_part_str ps)
     | None => ""
     end.

End Packaging.

(* ================================================================== *)
(** * Rich comparison

    Python's [==], [<], [<=] and [>] on the values that occur in a sort key:
    integers, strings, the two infinities of [packaging._structures] and
    tuples, which compare at the first position where they differ. *)

Class PyOrd (A : Type) : Type := {
  py_eq : A -> A -> bool;
  py_lt : A -> A -> bool;
  py_le : A -> A -> bool;
  py_gt : A -> A -> bool
}.

#[export] Instance nat_PyOrd : PyOrd nat := {
  py_eq := Nat.eqb;
  py_lt := Nat.ltb;
  py_le := Nat.leb;
  py_gt := fun a b => Nat.ltb b a
}.

#[export] Instance string_PyOrd : PyOrd string := {
  py_eq := String.eqb;
  py_lt := String.ltb;
  py_le := String.leb;
  py_gt := fun a b => String.ltb b a
}.

(** A value or one of [NegativeInfinity], [Infinity].  The methods of the
    infinities are constant: [Infinity.__lt__] and [Infinity.__le__] are
    false, [Infinity.__gt__] is true, and the other way round for
    [NegativeInfinity], whatever the other operand is; against a plain
    value the reflected method of the infinity answers. *)
Inductive ext (A : Type) : Type :=
| NegativeInfinity
| Fin (a : A)
| Infinity.
Arguments NegativeInfinity {A}.
Arguments Fin {A} a.
Arguments Infinity {A}.

#[export] Instance ext_PyOrd {A} `{PyOrd A} : PyOrd (ext A) := {
  py_eq := fun x y =>
    match x, y with
    | NegativeInfinity, NegativeInfinity => true
    | Infinity, Infinity => true
    | Fin a, Fin b => py_eq a b
    | _, _ => false
    end;
  py_lt := fun x y =>
    match x, y with
    | NegativeInfinity, _ => true
    | Infinity, _ => false
    | Fin _, NegativeInfinity => false
    | Fin _, Infinity => true
    | Fin a, Fin b => py_lt a b
    end;
  py_le := fun x y =>
    match x, y with
    | NegativeInfinity, _ => true
    | Infinity, _ => false
    | Fin _, NegativeInfinity => false
    | Fin _, Infinity => true
    | Fin a, Fin b => py_le a b
    end;
  py_gt := fun x y =>
    match x, y with
    | NegativeInfinity, _ => false
    | Infinity, _ => true
    | Fin _, NegativeInfinity => true
    | Fin _, Infinity => false
    | Fin a, Fin b => py_gt a b
    end
}.

(** Tuples of length two. *)
#[export] Instance pair_PyOrd {A B} `{PyOrd A} `{PyOrd B} : PyOrd (A * B) := {
  py_eq := fun x y => py_eq (fst x) (fst y) && py_eq (snd x) (snd y);
  py_lt := fun x y =>
    if negb (py_eq (fst x) (fst y)) then py_lt (fst x) (fst y)
    else if negb (py_eq (snd x) (snd y)) then py_lt (snd x) (snd y)
    else false;
  py_le := fun x y =>
    if negb (py_eq (fst x) (fst y)) then py_le (fst x) (fst y)
    else if negb (py_eq (snd x) (snd y)) then py_le (snd x) (snd y)
    else true;
  py_gt := fun x y =>
    if negb (py_eq (fst x) (fst y)) then py_gt (fst x) (fst y)
    else if negb (py_eq (snd x) (snd y)) then py_gt (snd x) (snd y)
    else false
}.

(** Tuples of any length. *)
Fixpoint tuple_eq {A} `{PyOrd A} (xs ys : list A) : bool :=
  match xs, ys with
  | [], [] => true
  | x :: xs', y :: ys' => py_eq x y && tuple_eq xs' ys'
  | _, _ => false
  end.

Fixpoint tuple_lt {A} `{PyOrd A} (xs ys : list A) : bool :=
  match xs, ys with
  | _, [] => false
  | [], _ :: _ => true
  | x :: xs', y :: ys' =>
      if negb (py_eq x y) then py_lt x y else tuple_lt xs' ys'
  end.

Fixpoint tuple_le {A} `{PyOrd A} (xs ys : list A) : bool :=
  match xs, ys with
  | [], _ => true
  | _ :: _, [] => false
  | x :: xs', y :: ys' =>
      if negb (py_eq x y) then py_le x y else tuple_le xs' ys'
  end.

Fixpoint tuple_gt {A} `{PyOrd A} (xs ys : list A) : bool :=
  match xs, ys with
  | [], _ => false
  | _ :: _, [] => true
  | x :: xs', y :: ys' =>
      if negb (py_eq x y) then py_gt x y else tuple_gt xs' ys'
  end.

#[export] Instance tuple_PyOrd {A} `{PyOrd A} : PyOrd (list A) := {
  py_eq := tuple_eq;
  py_lt := tuple_lt;
  py_le := tuple_le;
  py_gt := tuple_gt
}.

Module Key.
Import Packaging.

(** The type of [Version._key]. *)
Definition CmpKey : Type :=
  (nat * (list nat * (ext (string * nat) * (ext (string * nat)
   * (ext (string * nat) * ext (list (ext nat * string)))))))%type.

(** [itertools.dropwhile(lambda x: x == 0, xs)] *)
Fixpoint dropwhile_zero (xs : list nat) : list nat :=
  match xs with
  | 0 :: xs' => dropwhile_zero xs'
  | _ => xs
  end.

Definition _cmpkey (epoch : nat) (release : list nat)
    (pre post dev : option (string * nat)) (local : option (list local_part))
    : CmpKey :=
  let _release := List.rev (dropwhile_zero (List.rev release)) in
  let _pre :=
    match pre, post, dev with
    | None, None, Some _ => NegativeInfinity
    | None, _, _ => Infinity
    | Some p, _, _ => Fin p
    end in
  let _post :=
    match post with
    | None => NegativeInfinity
    | Some p => Fin p
    end in
  let _dev :=
    match dev with
    | None => Infinity
    | Some d => Fin d
    end in
  let _local :=
    match local with
    | None => NegativeInfinity
    | Some ps =>
        Fin (map (fun i => match i with
                           | LInt n => (Fin n, "")
                           | LStr s => (NegativeInfinity, s)
                           end) ps)
    end in
  (epoch, (_release, (_pre, (_post, (_dev, _local))))).

Definition _key (v : Version) : CmpKey :=
  _cmpkey (epoch v) (release v) (pre v) (post v) (dev v) (local v).

(** [__eq__], [__lt__], [__le__], [__gt__] of [_BaseVersion] *)
Definition eq (a b : Version) : bool := py_eq (_key a) (_key b).
Definition lt (a b : Version) : bool := py_lt (_key a) (_key b).
Definition le (a b : Version) : bool := py_le (_key a) (_key b).
Definition gt (a b : Version) : bool := py_gt (_key a) (_key b).

End Key.

(* ================================================================== *)
(** * The environment of a run: manifest file and git repository *)

(** Exceptions.  [UvbumpError] is the only class [_core.py] raises itself;
    the others escape from the collaborators. *)
Inductive exn : Type :=
| UvbumpError (msg : string)
| InvalidVersion (msg : string)
| TypeError
| PermissionError
| GitCommandError (msg : string).

Inductive result (A : Type) : Type :=
| Ok (a : A)
| Raise (e : exn).
Arguments Ok {A} a.
Arguments Raise {A} e.

(** TOML values as [tomllib] returns them; a table is a [dict], whose
    insertion order [tomli_w] preserves. *)
#[warnings="-register-all"] Inductive toml : Type :=
| TStr (s : string)
| TInt (n : nat)
| TTable (items : list (string * toml)).

Definition dict : Type := list (string * toml).

Fixpoint dict_get (d : dict) (key : string) : option toml :=
  match d with
  | [] => None
  | (k, v) :: d' => if String.eqb k key then Some v else dict_get d' key
  end.

(** [d[key] = v] *)
Fixpoint dict_set (d : dict) (key : string) (v : toml) : dict :=
  match d with
  | [] => [(key, v)]
  | (k, v0) :: d' =>
      if String.eqb k key then (k, v) :: d' else (k, v0) :: dict_set d' key v
  end.

(** A TOML file: its content as a parsed document, and whether it can be
    opened for writing. *)
Record File : Type := mkFile {
  content : dict;
  writable : bool
}.

(** What [git] knows about the working directory: the paths whose index
    entry differs from [HEAD], the tracked paths whose working copy differs
    from the index, the untracked paths, the messages of the commits (newest
    first) and the tag names. *)
Record Repo : Type := mkRepo {
  staged : list string;
  unstaged : list string;
  untracked : list string;
  commits : list string;
  tags : list string
}.

(** A [pathlib.Path] below a directory. *)
Record Path : Type := mkPath {
  parent : string;
  name : string
}.

(** [str(path)] *)
Definition path_str (p : Path) : string :=
  if String.eqb (parent p) "/" then "/" ++ name p
  else parent p ++ "/" ++ name p.

(** The process environment: the working directory, the files by absolute
    path, and the repository whose work tree is the working directory, if
    there is one. *)
Record World : Type := mkWorld {
  cwd : string;
  files : list (string * File);
  repo : option Repo
}.

Fixpoint file_get (fs : list (string * File)) (p : string) : option File :=
  match fs with
  | [] => None
  | (q, f) :: fs' => if String.eqb q p then Some f else file_get fs' p
  end.

Fixpoint file_set (fs : list (string * File)) (p : string) (f : File)
    : list (string * File) :=
  match fs with
  | [] => [(p, f)]
  | (q, f0) :: fs' =>
      if String.eqb q p then (q, f) :: fs' else (q, f0) :: file_set fs' p f
  end.

(** Computations that read and write the environment and may raise. *)
Definition M (A : Type) : Type := World -> result A * World.

Definition ret {A} (a : A) : M A := fun w => (Ok a, w).
Definition raise {A} (e : exn) : M A := fun w => (Raise e, w).
Definition lift {A} (r : result A) : M A := fun w => (r, w).
Definition bind {A B} (m : M A) (f : A -> M B) : M B :=
  fun w =>
    match m w with
    | (Ok a, w') => f a w'
    | (Raise e, w') => (Raise e, w')
    end.
Definition get_world : M World := fun w => (Ok w, w).
Definition put_world (w' : World) : M unit := fun _ => (Ok tt, w').

Notation "x <- m ;; k" := (bind m (fun x => k))
  (at level 61, m at next level, right associativity).
Notation "m ;;; k" := (bind m (fun _ => k))
  (at level 61, right associativity).

(** Truth value of a list. *)
Definition nonempty {A} (xs : list A) : bool :=
  match xs with
  | [] => false
  | _ :: _ => true
  end.

Definition str_in (x : string) (xs : list string) : bool :=
  existsb (String.eqb x) xs.

Fixpoint remove_str (x : string) (xs : list string) : list string :=
  match xs with
  | [] => []
  | y :: ys => if String.eqb x y then remove_str x ys else y :: remove_str x ys
  end.

Definition add_str (x : string) (xs : list string) : list string :=
  if str_in x xs then xs else x :: xs.

Module Git.

(** [repo.is_dirty(index, working_tree, untracked_files)]; GitPython's
    defaults are [index=True], [working_tree=True], [untracked_files=False],
    and by its documentation the repository then is dirty if the index or
    the working copy have changes: the index is compared with [HEAD] first
    ([git diff --cached]), then the working tree with the index
    ([git diff]). *)
Definition is_dirty (r : Repo) (index working_tree untracked_files : bool)
    : bool :=
  if index && nonempty (staged r) then true
  else if working_tree && nonempty (unstaged r) then true
  else if untracked_files && nonempty (untracked r) then true
  else false.

(** [repo.index.diff("HEAD")] *)
Definition index_diff_HEAD (r : Repo) : list string := staged r.

(** [repo.index.add([path])] *)
Definition index_add (path : string) (r : Repo) : Repo :=
  {| staged := add_str path (staged r);
     unstaged := remove_str path (unstaged r);
     untracked := remove_str path (untracked r);
     commits := commits r;
     tags := tags r |}.

(** [repo.index.commit(message)] *)
Definition index_commit (message : string) (r : Repo) : Repo :=
  {| staged := [];
     unstaged := unstaged r;
     untracked := untracked r;
     commits := message :: commits r;
     tags := tags r |}.

(** [repo.create_tag(tag)]: [git tag] refuses a name that exists. *)
Definition create_tag (tag : string) (r : Repo) : result Repo :=
  if str_in tag (tags r)
  then Raise (GitCommandError ("tag '" ++ tag ++ "' already exists"))
  else Ok {| staged := staged r;
             unstaged := unstaged r;
             untracked := untracked r;
             commits := commits r;
             tags := tag :: tags r |}.

(** The working copy of a tracked file has been rewritten. *)
Definition touch (path : string) (r : Repo) : Repo :=
  {| staged := staged r;
     unstaged := if str_in path (untracked r) then unstaged r
                 else add_str path (unstaged r);
     untracked := untracked r;
     commits := commits r;
     tags := tags r |}.

End Git.

(* ================================================================== *)
(** * [_core.py] *)

Module Core.
Import Packaging.

Record VersionInfo : Type := mkVersionInfo {
  path : string;
  old_version : string;
  new_version : string;
  commit_message : string;
  tag : string
}.

(** [sub in s] on strings *)
Definition contains (sub s : string) : bool :=
  match String.index 0 sub s with
  | Some _ => true
  | None => false
  end.

(** [key in v] for a TOML value [v] *)
Definition toml_in (key : string) (v : toml) : result bool :=
  match v with
  | TTable items => Ok (match dict_get items key with
                        | Some _ => true
                        | None => false
                        end)
  | TStr s => Ok (contains key s)
  | TInt _ => Raise TypeError
  end.

(** [v[key]] for a TOML value [v] known to hold [key] *)
Definition toml_item (v : toml) (key : string) : result toml :=
  match v with
  | TTable items => match dict_get items key with
                    | Some x => Ok x
                    | None => Raise TypeError
                    end
  | _ => Raise TypeError
  end.

Definition load_pyproject_toml (path : Path) : M dict :=
  w <- get_world ;;
  match file_get (files w) (path_str path) with
  | None => raise (UvbumpError ("pyproject.toml not found in " ++ parent path))
  | Some f =>
      let data := content f in
      match dict_get data "project" with
      | None => raise (UvbumpError "project.version not found in pyproject.toml")
      | Some project =>
          has <- lift (toml_in "version" project) ;;
          if has then ret data
          else raise (UvbumpError "project.version not found in pyproject.toml")
      end
  end.

(** [open(path, "wb")] fails on a file that cannot be written; otherwise
    the document replaces the content. *)
Definition save_pyproject_toml (path : Path) (data : dict) : M unit :=
  w <- get_world ;;
  let writable_now :=
    match file_get (files w) (path_str path) with
    | Some f => writable f
    | None => true
    end in
  if writable_now then
    put_world {| cwd := cwd w;
                 files := file_set (files w) (path_str path)
                            {| content := data; writable := true |};
                 repo := option_map (Git.touch (name path)) (repo w) |}
  else raise PermissionError.

Definition validate_version (version_str : string) : result Version :=
  match parse version_str with
  | Some v => Ok v
  | None => Raise (UvbumpError ("Invalid version format: " ++ version_str))
  end.

(** [Version(s)] outside a [try]: [InvalidVersion] escapes. *)
Definition Version_ (s : string) : result Version :=
  match parse s with
  | Some v => Ok v
  | None => Raise (InvalidVersion ("Invalid version: '" ++ s ++ "'"))
  end.

Definition bump_version (current : Version) (bump_type : string)
    : result Version :=
  if String.eqb bump_type "major" then
    Version_ (Py.str (major current + 1) ++ ".0.0")
  else if String.eqb bump_type "minor" then
    Version_ (Py.str (major current) ++ "." ++ Py.str (minor current + 1)
              ++ ".0")
  else if String.eqb bump_type "patch" then
    Version_ (Py.str (major current) ++ "." ++ Py.str (minor current) ++ "."
              ++ Py.str (micro current + 1))
  else if String.eqb bump_type "bump" then
    if is_prerelease current then
      match pre current with
      | Some (pre_type, pre_num) =>
          Version_ (base_version current ++ pre_type ++ Py.str (pre_num + 1))
      | None =>
          Raise (UvbumpError
                   "Cannot bump pre-release version without pre-release number")
      end
    else
      Version_ (Py.str (major current) ++ "." ++ Py.str (minor current) ++ "."
                ++ Py.str (micro current + 1))
  else Raise (UvbumpError ("Unknown bump type: " ++ bump_type)).

Definition check_git_status (r : Repo) : result unit :=
  if Git.is_dirty r true true false then
    Raise (UvbumpError "Repository has unstaged changes")
  else if nonempty (Git.index_diff_HEAD r) then
    Raise (UvbumpError "Repository has staged changes")
  else Ok tt.

(** [git.Repo(".")] *)
Definition open_repo : M Repo :=
  w <- get_world ;;
  match repo w with
  | Some r => ret r
  | None => raise (UvbumpError "Not a git repository")
  end.

(** An operation on the repository that [open_repo] returned. *)
Definition with_repo (f : Repo -> result Repo) : M unit :=
  w <- get_world ;;
  match repo w with
  | Some r =>
      r' <- lift (f r) ;;
      put_world {| cwd := cwd w; files := files w; repo := Some r' |}
  | None => ret tt
  end.

Definition update_version (new_version : string) (test_tag dry_run : bool)
    : M VersionInfo :=
  w <- get_world ;;
  let pyproject_path := {| parent := cwd w; name := "pyproject.toml" |} in
  data <- load_pyproject_toml pyproject_path ;;
  project <- lift (toml_item (TTable data) "project") ;;
  current_version_toml <- lift (toml_item project "version") ;;
  current_version_str <-
    match current_version_toml with
    | TStr s => ret s
    | _ => raise TypeError
    end ;;
  current_version <- lift (validate_version current_version_str) ;;
  new_version_obj <-
    (if str_in new_version ["major"; "minor"; "patch"; "bump"]
     then lift (bump_version current_version new_version)
     else lift (validate_version new_version)) ;;
  (if Key.le new_version_obj current_version
   then raise (UvbumpError ("New version " ++ to_str new_version_obj
                            ++ " must be greater than current version "
                            ++ to_str current_version))
   else ret tt) ;;;
  r <- open_repo ;;
  lift (check_git_status r) ;;;
  let new_version_str := to_str new_version_obj in
  let commit_message := new_version_str in
  let tag := if test_tag then "test-" ++ new_version_str
             else "v" ++ new_version_str in
  let version_info :=
    {| path := path_str pyproject_path;
       old_version := current_version_str;
       new_version := new_version_str;
       commit_message := commit_message;
       tag := tag |} in
  (if negb dry_run then
     let data :=
       dict_set data "project"
         (match project with
          | TTable items =>
              TTable (dict_set items "version" (TStr new_version_str))
          | other => other
          end) in
     save_pyproject_toml pyproject_path data ;;;
     with_repo (fun r => Ok (Git.index_add (name pyproject_path) r)) ;;;
     with_repo (fun r => Ok (Git.index_commit commit_message r)) ;;;
     with_repo (Git.create_tag tag)
   else ret tt) ;;;
  ret version_info.

End Core.

(* ================================================================== *)
(** * Definitions for the statements and their proofs *)

Import Re Packaging Core.

(** ** Runs of characters and greedy matching *)

(** Every character of [s] is in the class [p]. *)
Fixpoint all_chars (p : ascii -> bool) (s : string) : bool :=
  match s with
  | EmptyString => true
  | String c s' => p c && all_chars p s'
  end.

(** [s] is empty or starts outside the class [p]. *)
Definition stops (p : ascii -> bool) (s : string) : bool :=
  match s with
  | EmptyString => true
  | String c _ => negb (p c)
  end.

(** The continuation tried on [rest] first, then with the characters of
    [ds] given back one by one, as a greedy quantifier does. *)
Fixpoint backtrack (k : cont) (ds rest : string) (g : groups)
    : option groups :=
  match ds with
  | EmptyString => k rest g
  | String c ds' =>
      match backtrack k ds' rest g with
      | Some x => Some x
      | None => k (String c ds' ++ rest) g
      end
  end.

(** The segments of a release after the first, each behind its dot. *)
Fixpoint dotted (segs : list string) : string :=
  match segs with
  | [] => EmptyString
  | d :: segs' => "." ++ d ++ dotted segs'
  end.

(** The subject starts with a digit. *)
Definition starts_digit (s : string) : bool :=
  match s with
  | EmptyString => false
  | String c _ => Py.isdigit c
  end.

(** What may follow the release segment: not a digit and not a dot. *)
Definition after_release (s : string) : bool :=
  stops (fun c => Py.isdigit c || Ascii.eqb c ".") s.

(** [r] consumes [a] in front of [rest] and hands over to its continuation:
    whatever follows succeeds on [rest], the greedy match is the answer. *)
Definition Accepts (r : regex) (a rest : string) (g g' : groups) : Prop :=
  forall (k : cont) (x : groups),
    k rest g' = Some x -> rmatch r (a ++ rest) g k = Some x.

(** [r] fails on [s] whatever follows. *)
Definition Rejects (r : regex) (s : string) (g : groups) : Prop :=
  forall k : cont, rmatch r s g k = None.

(** The spellings of a pre-release letter that the pattern accepts. *)
Definition pre_spellings : list string :=
  ["alpha"; "a"; "beta"; "b"; "preview"; "pre"; "c"; "rc"].

(** The three parts of a version string without post, dev or local
    segment, as strings of digits and a spelling of the pre-release
    letter. *)
Definition epoch_part (e : option string) : string :=
  match e with
  | Some d => d ++ "!"
  | None => ""
  end.

Definition release_part (d : string) (segs : list string) : string :=
  d ++ dotted segs.

Definition pre_part (p : option (string * string)) : string :=
  match p with
  | Some (l, n) => l ++ n
  | None => ""
  end.

Definition epoch_ok (e : option string) : Prop :=
  match e with
  | Some d => Py.str_isdigit d = true
  | None => True
  end.

Definition pre_ok (p : option (string * string)) : Prop :=
  match p with
  | Some (l, n) => In l pre_spellings /\ Py.str_isdigit n = true
  | None => True
  end.

Definition epoch_groups (e : option string) : groups :=
  match e with
  | Some d => [("epoch", d)]
  | None => []
  end.

Definition pre_groups (p : option (string * string)) : groups :=
  match p with
  | Some (l, n) => [("pre", l ++ n); ("pre_n", n); ("pre_l", l)]
  | None => []
  end.

(** The normal form of a pre-release letter. *)
Definition pre_letter (l : string) : string :=
  if str_in l ["alpha"; "a"] then "a"
  else if str_in l ["beta"; "b"] then "b"
  else "rc".

(** A version with an epoch, a release and a pre-release segment only. *)
Definition plain (e : nat) (rel : list nat) (p : option (string * nat))
    : Version :=
  {| epoch := e; release := rel; dev := None; pre := p; post := None;
     local := None |}.

(** The letters a pre-release segment carries after normalisation. *)
Definition normal_letters : list string := ["a"; "b"; "rc"].

Definition pre_normal (p : option (string * nat)) : Prop :=
  match p with
  | Some (l, _) => In l normal_letters
  | None => True
  end.

(** [str] of a pre-release segment, as [__str__] prints it. *)
Definition pre_str (p : option (string * nat)) : string :=
  match p with
  | Some (l, n) => l ++ Py.str n
  | None => ""
  end.

(** ** What a successful match says about the subject

    [sem r s g s' g']: [r] matches a prefix of [s], leaves [s'] and extends
    the groups [g] to [g']. *)

Inductive iter (R : string -> groups -> string -> groups -> Prop)
    : string -> groups -> string -> groups -> Prop :=
| iter_stop s g : iter R s g s g
| iter_step s g s1 g1 s2 g2 :
    R s g s1 g1 -> iter R s1 g1 s2 g2 -> iter R s g s2 g2.

Fixpoint sem (r : regex) (s : string) (g : groups) (s' : string) (g' : groups)
    {struct r} : Prop :=
  match r with
  | Empty => s' = s /\ g' = g
  | Chr c => exists a, s = String a s' /\ chr_eqb a c = true /\ g' = g
  | Cls p => exists a, s = String a s' /\ p a = true /\ g' = g
  | Cat r1 r2 => exists s1 g1, sem r1 s g s1 g1 /\ sem r2 s1 g1 s' g'
  | Alt r1 r2 => sem r1 s g s' g' \/ sem r2 s g s' g'
  | Opt r1 => sem r1 s g s' g' \/ (s' = s /\ g' = g)
  | Star r1 => iter (sem r1) s g s' g'
  | Group name r1 =>
      exists g1, sem r1 s g s' g1 /\
        g' = (name, substring 0 (String.length s - String.length s') s) :: g1
  | Eos => s' = s /\ g' = g
  end.

(** The names of the groups of a pattern. *)
Fixpoint names (r : regex) : list string :=
  match r with
  | Cat r1 r2 | Alt r1 r2 => (names r1 ++ names r2)%list
  | Opt r1 | Star r1 => names r1
  | Group name r1 => name :: names r1
  | _ => []
  end.

(** ** The grammar of a pattern *)

(** Zero or more rounds of [R]. *)
Inductive rounds (R : string -> string -> Prop) : string -> string -> Prop :=
| rounds_stop s : rounds R s s
| rounds_step s s1 s2 : R s s1 -> rounds R s1 s2 -> rounds R s s2.

(** [lang r s s']: the pattern [r] describes a prefix of [s] that leaves
    [s']; groups, greediness and the order of alternatives play no part. *)
Fixpoint lang (r : regex) (s s' : string) {struct r} : Prop :=
  match r with
  | Empty => s' = s
  | Chr c => exists a, s = String a s' /\ chr_eqb a c = true
  | Cls p => exists a, s = String a s' /\ p a = true
  | Cat r1 r2 => exists s1, lang r1 s s1 /\ lang r2 s1 s'
  | Alt r1 r2 => lang r1 s s' \/ lang r2 s s'
  | Opt r1 => lang r1 s s' \/ s' = s
  | Star r1 => rounds (lang r1) s s'
  | Group _ r1 => lang r1 s s'
  | Eos => s' = s /\ (s = "" \/ s = String "010" "")
  end.

(** The version strings of PEP 440, as the pattern of [packaging]
    describes them: optional white space around, an optional leading [v],
    an optional epoch, a release of one or more numbers, and optional
    pre-release, post-release, development and local segments. *)
Definition pep440 (s : string) : Prop := exists s', lang _regex s s'.

(** A continuation whose success does not depend on the groups. *)
Definition uniform (k : cont) : Prop :=
  forall s g1 g2, k s g1 = None -> k s g2 = None.

(** Where two values differ, [<=] is the negation of [>]. *)
Class PyOrdLaw (A : Type) `{PyOrd A} : Prop :=
  le_not_gt : forall x y : A, py_eq x y = false -> py_le x y = negb (py_gt x y).

(** ** Observations on the environment *)

Definition manifest_path (w : World) : Path :=
  {| parent := cwd w; name := "pyproject.toml" |}.

(** The string under [project.version] in the manifest, when the file
    exists and the field is a string. *)
Definition manifest_version (w : World) : option string :=
  match file_get (files w) (path_str (manifest_path w)) with
  | Some f =>
      match dict_get (content f) "project" with
      | Some (TTable items) =>
          match dict_get items "version" with
          | Some (TStr s) => Some s
          | _ => None
          end
      | _ => None
      end
  | None => None
  end.

Definition commits_of (w : World) : list string :=
  match repo w with
  | Some r => commits r
  | None => []
  end.

Definition tags_of (w : World) : list string :=
  match repo w with
  | Some r => tags r
  | None => []
  end.

(** The version a request resolves to against the current one: a bump
    keyword goes through [bump_version], anything else is parsed. *)
Definition requested (current : Version) (new_version : string)
    : result Version :=
  if str_in new_version ["major"; "minor"; "patch"; "bump"]
  then bump_version current new_version
  else validate_version new_version.

(** The error of the progression check. *)
Definition not_advancing (next current : Version) : exn :=
  UvbumpError ("New version " ++ to_str next
               ++ " must be greater than current version " ++ to_str current).

(** The summary of a run that takes the manifest at [old] to [next]. *)
Definition info_of (w : World) (old : string) (next : Version)
    (test_tag : bool) : VersionInfo :=
  {| path := path_str (manifest_path w);
     old_version := old;
     new_version := to_str next;
     commit_message := to_str next;
     tag := if test_tag then "test-" ++ to_str next
            else "v" ++ to_str next |}.

(** The manifest after the version field has been replaced. *)
Definition rewritten (f : File) (items : dict) (next : Version) : File :=
  {| content := dict_set (content f) "project"
                  (TTable (dict_set items "version" (TStr (to_str next))));
     writable := true |}.

(** The repository after the manifest has been rewritten, staged and
    committed. *)
Definition committed (r : Repo) (next : Version) : Repo :=
  Git.index_commit (to_str next)
    (Git.index_add "pyproject.toml" (Git.touch "pyproject.toml" r)).

(** The three steps of a real run, from a clean repository [r]. *)
Definition mutate (w : World) (f : File) (items : dict) (r : Repo)
    (old : string) (next : Version) (test_tag : bool)
    : result VersionInfo * World :=
  if writable f then
    let files' := file_set (files w) (path_str (manifest_path w))
                    (rewritten f items next) in
    match Git.create_tag (tag (info_of w old next test_tag))
            (committed r next) with
    | Ok r' => (Ok (info_of w old next test_tag),
                {| cwd := cwd w; files := files'; repo := Some r' |})
    | Raise e => (Raise e,
                  {| cwd := cwd w; files := files';
                     repo := Some (committed r next) |})
    end
  else (Raise PermissionError, w).

(** ** Sample environments *)

(** The manifest and the repository of the integration tests. *)
Definition sample_manifest (version : string) : File :=
  {| content := [("project", TTable [("name", TStr "test-project");
                                     ("version", TStr version);
                                     ("description", TStr "Test project")])];
     writable := true |}.

Definition sample_world (version : string) (r : Repo) : World :=
  {| cwd := "/tmp/test_project";
     files := [("/tmp/test_project/pyproject.toml", sample_manifest version)];
     repo := Some r |}.

Definition clean_repo : Repo :=
  {| staged := []; unstaged := []; untracked := [];
     commits := ["Initial commit"]; tags := [] |}.

(** A clean repository in which the tag of the next patch release exists. *)
Definition tagged_repo : Repo :=
  {| staged := []; unstaged := []; untracked := [];
     commits := ["Initial commit"]; tags := ["v1.0.1"] |}.

(** A new file has been added to the index; the work tree is clean. *)
Definition staged_repo : Repo :=
  {| staged := ["test_file.txt"]; unstaged := []; untracked := [];
     commits := ["Initial commit"]; tags := [] |}.

(** ** Statements of the specification *)

(** All three mutations took place. *)
Definition all_three (w w' : World) : Prop :=
  files w' <> files w
  /\ (exists m, commits_of w' = m :: commits_of w)
  /\ (exists t, tags_of w' = t :: tags_of w).

(** No mutation took place. *)
Definition none_of_three (w w' : World) : Prop :=
  files w' = files w /\ commits_of w' = commits_of w /\ tags_of w' = tags_of w.

(** A real run is all-or-nothing. *)
Definition all_or_nothing (new_version : string) (test_tag : bool) (w : World)
    : Prop :=
  let w' := snd (update_version new_version test_tag false w) in
  all_three w w' \/ none_of_three w w'.

(** Errors raised by the steps that change the manifest or the repository. *)
Definition mutation_error (e : exn) : bool :=
  match e with
  | PermissionError | GitCommandError _ => true
  | _ => false
  end.

(** What a real run leaves behind, by outcome. *)
Definition steps_done (w : World) (out : result VersionInfo * World) : Prop :=
  match out with
  | (Ok info, w') =>
      manifest_version w' = Some (new_version info)
      /\ commits_of w' = commit_message info :: commits_of w
      /\ tags_of w' = tag info :: tags_of w
  | (Raise (GitCommandError _), w') =>
      (exists next, manifest_version w' = Some next
                    /\ commits_of w' = next :: commits_of w)
      /\ tags_of w' = tags_of w
  | (Raise _, w') => w' = w
  end.

(** Only letters. *)
Fixpoint all_alpha (s : string) : bool :=
  match s with
  | EmptyString => true
  | String c s' => (Py.islower c || Py.isupper c) && all_alpha s'
  end.

(** Nothing, or an alphabetic label immediately followed by digits. *)
Definition spec_suffix (x : string) : Prop :=
  x = "" \/
  exists l n, l <> "" /\ all_alpha l = true /\ Py.str_isdigit n = true
              /\ x = l ++ n.

(** The grammar of the specification: numeric major.minor.patch with an
    optional pre-release suffix. *)
Definition spec_grammar (s : string) : Prop :=
  exists M m p x,
    Py.str_isdigit M = true /\ Py.str_isdigit m = true
    /\ Py.str_isdigit p = true /\ spec_suffix x
    /\ s = M ++ "." ++ m ++ "." ++ p ++ x.

(** The number of dots in a string. *)
Fixpoint count_dots (s : string) : nat :=
  match s with
  | EmptyString => 0
  | String c s' => (if Ascii.eqb c "." then 1 else 0) + count_dots s'
  end.

(** The canonical string of major.minor.patch and an optional pre-release
    segment: decimal numbers, a normal letter, no separator. *)
Definition canonical (M m p : nat) (pre : option (string * nat)) : string :=
  Py.str M ++ "." ++ Py.str m ++ "." ++ Py.str p ++ pre_str pre.

(** ** Further observations *)

(** [==] holds between a value and itself. *)
Class PyEqRefl (A : Type) `{PyOrd A} : Prop :=
  py_eq_refl : forall x : A, py_eq x x = true.


(** The content of the manifest file. *)
Definition manifest_content (w : World) : option dict :=
  option_map content (file_get (files w) (path_str (manifest_path w))).

(** The items of the [project] table of a document. *)
Definition project_items (d : dict) : option dict :=
  match dict_get d "project" with
  | Some (TTable items) => Some items
  | _ => None
  end.

(* ================================================================== *)
(** * Properties *)

Section StringFacts.

Lemma append_nil_r (s : string) : s ++ "" = s.
Proof. induction s as [|c s IH]; simpl; [reflexivity | now rewrite IH]. Qed.

Lemma append_assoc (a b c : string) : (a ++ b) ++ c = a ++ (b ++ c).
Proof. induction a as [|x a IH]; simpl; [reflexivity | now rewrite IH]. Qed.

Lemma length_append (a b : string) :
  String.length (a ++ b) = String.length a + String.length b.
Proof. induction a as [|x a IH]; simpl; [reflexivity | now rewrite IH]. Qed.

Lemma substring_all (a b : string) :
  substring 0 (String.length a) (a ++ b) = a.
Proof.
  induction a as [|x a IH]; simpl.
  - destruct b; reflexivity.
  - now rewrite IH.
Qed.

Lemma substring_consumed (a b : string) :
  substring 0 (String.length (a ++ b) - String.length b) (a ++ b) = a.
Proof.
  rewrite length_append.
  replace (String.length a + String.length b - String.length b)
    with (String.length a) by lia.
  apply substring_all.
Qed.

End StringFacts.

Section DigitFacts.

Lemma all_digits_string_of_uint (d : uint) :
  Py.all_digits (NilEmpty.string_of_uint d) = true.
Proof. induction d; simpl; auto. Qed.

Lemma to_uint_not_nil (n : nat) : Nat.to_uint n <> Nil.
Proof.
  intros H.
  pose proof (DecimalNat.Unsigned.to_of (Nat.to_uint n)) as E.
  rewrite DecimalNat.Unsigned.of_to, H in E. discriminate E.
Qed.

Lemma str_isdigit_str (n : nat) : Py.str_isdigit (Py.str n) = true.
Proof.
  unfold Py.str_isdigit, Py.str.
  pose proof (all_digits_string_of_uint (Nat.to_uint n)) as H.
  destruct (Nat.to_uint n) eqn:E; simpl in *; auto.
  now apply to_uint_not_nil in E.
Qed.

Lemma int_str (n : nat) : Py.int (Py.str n) = n.
Proof.
  unfold Py.int, Py.str.
  rewrite NilEmpty.usu. apply DecimalNat.Unsigned.of_to.
Qed.

End DigitFacts.

Section Greedy.

Lemma star_cls_backtrack (p : ascii -> bool) (k : cont) (ds rest : string) :
  all_chars p ds = true -> stops p rest = true ->
  forall (n : nat) (g : groups),
    String.length (ds ++ rest) <= n ->
    star_loop (rmatch (Cls p)) k n (ds ++ rest) g = backtrack k ds rest g.
Proof.
  intros Hds Hrest. induction ds as [|c ds IH]; intros n g Hn.
  - simpl. destruct n as [|n]; [reflexivity|].
    simpl. destruct rest as [|a rest']; [reflexivity|].
    simpl in Hrest. apply negb_true_iff in Hrest. now rewrite Hrest.
  - simpl in Hds. apply andb_true_iff in Hds as [Hc Hds].
    destruct n as [|n]; [simpl in Hn; lia|].
    simpl. rewrite Hc.
    assert (L : (String.length (ds ++ rest) <? S (String.length (ds ++ rest))) = true)
      by (apply Nat.ltb_lt; lia).
    rewrite L. rewrite IH; [reflexivity | assumption | simpl in Hn; lia].
Qed.

Lemma backtrack_greedy (k : cont) (ds rest : string) (g x : groups) :
  k rest g = Some x -> backtrack k ds rest g = Some x.
Proof. intros H. induction ds as [|c ds IH]; simpl; [assumption | now rewrite IH]. Qed.

Lemma backtrack_none (k : cont) (ds rest : string) (g : groups) :
  Py.all_digits ds = true ->
  k rest g = None ->
  (forall c t, Py.isdigit c = true -> k (String c t) g = None) ->
  backtrack k ds rest g = None.
Proof.
  intros Hds Hr Hd. induction ds as [|c ds IH]; simpl; [assumption|].
  simpl in Hds. apply andb_true_iff in Hds as [Hc Hds].
  rewrite (IH Hds). now apply Hd.
Qed.

Lemma all_chars_digits (s : string) : all_chars Py.isdigit s = Py.all_digits s.
Proof. induction s as [|c s IH]; simpl; [reflexivity | now rewrite IH]. Qed.

(** [[0-9]+] on a run of digits: the whole run first, then shorter ones. *)
Lemma plus_digit_backtrack (k : cont) (c : ascii) (ds rest : string) (g : groups) :
  Py.isdigit c = true -> Py.all_digits ds = true -> stops Py.isdigit rest = true ->
  rmatch (Plus digit) (String c ds ++ rest) g k = backtrack k ds rest g.
Proof.
  intros Hc Hds Hrest. simpl. rewrite Hc.
  apply star_cls_backtrack; auto. now rewrite all_chars_digits.
Qed.

Lemma plus_digit_greedy (k : cont) (d rest : string) (g x : groups) :
  Py.str_isdigit d = true -> stops Py.isdigit rest = true ->
  k rest g = Some x ->
  rmatch (Plus digit) (d ++ rest) g k = Some x.
Proof.
  intros Hd Hrest Hk. destruct d as [|c ds]; [discriminate|].
  simpl in Hd. apply andb_true_iff in Hd as [Hc Hds].
  rewrite plus_digit_backtrack by assumption.
  now apply backtrack_greedy.
Qed.

Lemma plus_digit_none (k : cont) (d rest : string) (g : groups) :
  Py.str_isdigit d = true -> stops Py.isdigit rest = true ->
  k rest g = None ->
  (forall c t, Py.isdigit c = true -> k (String c t) g = None) ->
  rmatch (Plus digit) (d ++ rest) g k = None.
Proof.
  intros Hd Hrest Hk Hdig. destruct d as [|c ds]; [discriminate|].
  simpl in Hd. apply andb_true_iff in Hd as [Hc Hds].
  rewrite plus_digit_backtrack by assumption.
  now apply backtrack_none.
Qed.

(** A starred class does nothing in front of a character outside it. *)
Lemma star_cls_skip (p : ascii -> bool) (k : cont) (s : string) (g : groups) :
  stops p s = true -> rmatch (Star (Cls p)) s g k = k s g.
Proof.
  intros H.
  exact (star_cls_backtrack p k "" s eq_refl H (String.length s) g (le_n _)).
Qed.

End Greedy.

Section CharFacts.

Ltac by_cases c :=
  destruct c as [[] [] [] [] [] [] [] []]; try discriminate; reflexivity.

Lemma lower_char_digit (c : ascii) : Py.isdigit c = true -> Py.lower_char c = c.
Proof. by_cases c. Qed.

Lemma isdigit_lower_char (c : ascii) : Py.isdigit (Py.lower_char c) = Py.isdigit c.
Proof. by_cases c. Qed.

Lemma digit_chr_neq (c x : ascii) :
  Py.isdigit c = true -> Py.isdigit x = false -> chr_eqb c x = false.
Proof.
  intros Hc Hx. unfold chr_eqb. rewrite (lower_char_digit c Hc).
  destruct (Ascii.eqb_spec c (Py.lower_char x)) as [E|]; [|reflexivity].
  rewrite <- (isdigit_lower_char x), <- E in Hx. congruence.
Qed.

Lemma digit_not_space (c : ascii) : Py.isdigit c = true -> Py.isspace c = false.
Proof. by_cases c. Qed.

Lemma digit_not_sep (c : ascii) : Py.isdigit c = true -> is_sep c = false.
Proof. by_cases c. Qed.

Lemma chr_eqb_dot (c : ascii) : chr_eqb c "." = Ascii.eqb c ".".
Proof. by_cases c. Qed.

End CharFacts.

Section Components.

Lemma rmatch_Cat r1 r2 s g k :
  rmatch (Cat r1 r2) s g k = rmatch r1 s g (fun s' g' => rmatch r2 s' g' k).
Proof. reflexivity. Qed.

Lemma rmatch_Group name r s g k :
  rmatch (Group name r) s g k =
  rmatch r s g (fun s' g' =>
    k s' ((name, substring 0 (String.length s - String.length s') s) :: g')).
Proof. reflexivity. Qed.

Lemma starts_digit_append (d rest : string) :
  Py.str_isdigit d = true -> starts_digit (d ++ rest) = true.
Proof.
  destruct d as [|c d]; [discriminate|]. simpl.
  intros H. now apply andb_true_iff in H as [H _].
Qed.

Lemma stops_digit_after_release (s : string) :
  after_release s = true -> stops Py.isdigit s = true.
Proof.
  destruct s as [|c s]; [reflexivity|]. unfold after_release. simpl.
  intros H. apply negb_true_iff, orb_false_iff in H as [H _]. now rewrite H.
Qed.

Lemma chr_eqb_bang (c : ascii) : chr_eqb c "!" = Ascii.eqb c "!".
Proof. destruct c as [[] [] [] [] [] [] [] []]; reflexivity. Qed.

Lemma epoch_none (d rest : string) (g x : groups) (k : cont) :
  Py.str_isdigit d = true ->
  stops (fun c => Py.isdigit c || Ascii.eqb c "!") rest = true ->
  k (d ++ rest) g = Some x ->
  rmatch epoch_re (d ++ rest) g k = Some x.
Proof.
  intros Hd Hrest Hk. unfold epoch_re.
  change (rmatch (Opt ?r) ?s ?g ?k) with
    (match rmatch r s g k with Some y => Some y | None => k s g end).
  rewrite rmatch_Cat, rmatch_Group.
  rewrite plus_digit_none; auto.
  - destruct rest as [|c rest]; [reflexivity|]. simpl in *.
    apply negb_true_iff, orb_false_iff in Hrest as [Hc _]. now rewrite Hc.
  - destruct rest as [|c rest]; [reflexivity|]. simpl in *.
    apply negb_true_iff, orb_false_iff in Hrest as [_ Hc].
    now rewrite chr_eqb_bang, Hc.
  - intros c t Hc. simpl. now rewrite digit_chr_neq.
Qed.

Lemma star_segments (k : cont) (segs : list string) (rest : string) :
  Forall (fun d => Py.str_isdigit d = true) segs ->
  after_release rest = true ->
  forall (n : nat) (g x : groups),
    String.length (dotted segs ++ rest) <= n ->
    k rest g = Some x ->
    star_loop (rmatch (Cat (Chr ".") (Plus digit))) k n (dotted segs ++ rest) g
    = Some x.
Proof.
  intros Hsegs Hrest. induction Hsegs as [|d segs Hd _ IH]; intros n g x Hn Hk.
  - cbn [dotted append]. destruct n as [|n]; [assumption|].
    cbn [star_loop]. rewrite rmatch_Cat.
    destruct rest as [|c rest]; [simpl; assumption|].
    unfold after_release in Hrest. simpl in Hrest.
    apply negb_true_iff, orb_false_iff in Hrest as [_ Hc].
    cbn [rmatch]. rewrite chr_eqb_dot, Hc. assumption.
  - cbn [dotted append] in *.
    rewrite append_assoc in Hn |- *.
    cbn [String.length] in Hn.
    destruct n as [|n]; [lia|].
    cbn [star_loop]. rewrite rmatch_Cat. cbn [rmatch].
    replace (chr_eqb "." ".") with true by reflexivity.
    rewrite plus_digit_greedy with (x := x); auto.
    + destruct segs; simpl; [now apply stops_digit_after_release | reflexivity].
    + assert (L : (String.length (dotted segs ++ rest)
                   <? String.length (String "." (d ++ dotted segs ++ rest))) = true).
      { apply Nat.ltb_lt. cbn [String.length]. rewrite (length_append d). lia. }
      rewrite L. apply IH; [|assumption].
      rewrite length_append in Hn. lia.
Qed.

Lemma release_greedy (d : string) (segs : list string) (rest : string)
    (g x : groups) (k : cont) :
  Py.str_isdigit d = true ->
  Forall (fun d => Py.str_isdigit d = true) segs ->
  after_release rest = true ->
  k rest (("release", d ++ dotted segs) :: g) = Some x ->
  rmatch release_re ((d ++ dotted segs) ++ rest) g k = Some x.
Proof.
  intros Hd Hsegs Hrest Hk. unfold release_re.
  rewrite rmatch_Group, rmatch_Cat.
  rewrite append_assoc.
  rewrite plus_digit_greedy with (x := x); auto.
  - destruct segs; simpl; [now apply stops_digit_after_release | reflexivity].
  - cbn [rmatch]. apply star_segments; auto.
    rewrite <- append_assoc, substring_consumed. assumption.
Qed.

End Components.

Section Derivations.

Lemma accepts_cat r1 r2 a b rest g g1 g2 :
  Accepts r1 a (b ++ rest) g g1 -> Accepts r2 b rest g1 g2 ->
  Accepts (Cat r1 r2) (a ++ b) rest g g2.
Proof.
  intros H1 H2 k x Hk. rewrite append_assoc. cbn [rmatch].
  apply H1. now apply H2.
Qed.

Lemma accepts_skip_then r1 r2 b rest g g2 :
  Accepts r1 "" (b ++ rest) g g -> Accepts r2 b rest g g2 ->
  Accepts (Cat r1 r2) b rest g g2.
Proof. intros H1 H2. exact (accepts_cat r1 r2 "" b rest g g g2 H1 H2). Qed.

Lemma accepts_then_skip r1 r2 a rest g g1 g2 :
  Accepts r1 a rest g g1 -> Accepts r2 "" rest g1 g2 ->
  Accepts (Cat r1 r2) a rest g g2.
Proof. intros H1 H2 k x Hk. cbn [rmatch]. apply H1. exact (H2 k x Hk). Qed.

Lemma accepts_alt_l r1 r2 a rest g g' :
  Accepts r1 a rest g g' -> Accepts (Alt r1 r2) a rest g g'.
Proof. intros H k x Hk. cbn [rmatch]. now rewrite (H k x Hk). Qed.

Lemma accepts_alt_r r1 r2 a rest g g' :
  Rejects r1 (a ++ rest) g -> Accepts r2 a rest g g' ->
  Accepts (Alt r1 r2) a rest g g'.
Proof. intros H1 H2 k x Hk. cbn [rmatch]. rewrite H1. now apply H2. Qed.

Lemma accepts_opt r a rest g g' :
  Accepts r a rest g g' -> Accepts (Opt r) a rest g g'.
Proof. intros H k x Hk. cbn [rmatch]. now rewrite (H k x Hk). Qed.

Lemma accepts_opt_skip r rest g :
  Rejects r rest g -> Accepts (Opt r) "" rest g g.
Proof. intros H k x Hk. cbn [rmatch append]. now rewrite H. Qed.

Lemma accepts_group name r a rest g g' :
  Accepts r a rest g g' -> Accepts (Group name r) a rest g ((name, a) :: g').
Proof.
  intros H k x Hk. cbn [rmatch]. apply H.
  now rewrite substring_consumed.
Qed.

Lemma chr_eqb_refl c : chr_eqb c c = true.
Proof. unfold chr_eqb. apply Ascii.eqb_refl. Qed.

Lemma accepts_word w rest g : Accepts (Word w) w rest g g.
Proof.
  induction w as [|c w IH]; intros k x Hk; cbn [Word rmatch append].
  - exact Hk.
  - rewrite chr_eqb_refl. now apply IH.
Qed.

Lemma accepts_chr c rest g : Accepts (Chr c) (String c "") rest g g.
Proof. intros k x Hk. cbn [rmatch append]. now rewrite chr_eqb_refl. Qed.

Lemma accepts_plus_digit d rest g :
  Py.str_isdigit d = true -> stops Py.isdigit rest = true ->
  Accepts (Plus digit) d rest g g.
Proof. intros Hd Hr k x Hk. now apply plus_digit_greedy. Qed.

Lemma accepts_star_skip p rest g :
  stops p rest = true -> Accepts (Star (Cls p)) "" rest g g.
Proof. intros H k x Hk. cbn [append]. now rewrite star_cls_skip. Qed.

Lemma rejects_cat r1 r2 s g : Rejects r1 s g -> Rejects (Cat r1 r2) s g.
Proof. intros H k. cbn [rmatch]. apply H. Qed.

Lemma rejects_group name r s g : Rejects r s g -> Rejects (Group name r) s g.
Proof. intros H k. cbn [rmatch]. apply H. Qed.

Lemma rejects_alt r1 r2 s g :
  Rejects r1 s g -> Rejects r2 s g -> Rejects (Alt r1 r2) s g.
Proof. intros H1 H2 k. cbn [rmatch]. now rewrite H1, H2. Qed.

Lemma rejects_cls p s g : stops p s = true -> Rejects (Cls p) s g.
Proof.
  intros H k. destruct s as [|c s]; [reflexivity|]. cbn [rmatch].
  simpl in H. apply negb_true_iff in H. now rewrite H.
Qed.

Lemma rejects_chr_digit x c s g :
  Py.isdigit c = true -> Py.isdigit x = false -> Rejects (Chr x) (String c s) g.
Proof. intros Hc Hx k. cbn [rmatch]. now rewrite digit_chr_neq. Qed.

(** After a (possibly skipped) optional separator. *)
Lemma rejects_opt_cat r1 r2 s g :
  Rejects r1 s g -> Rejects r2 s g -> Rejects (Cat (Opt r1) r2) s g.
Proof. intros H1 H2 k. cbn [rmatch]. now rewrite H1, H2. Qed.

End Derivations.

Section Pattern.

Lemma rejects_word w1 x w2 y s g :
  chr_eqb y x = false ->
  Rejects (Word (w1 ++ String x w2)) (w1 ++ String y s) g.
Proof.
  intros H k. induction w1 as [|c w1 IH]; cbn [Word append rmatch].
  - now rewrite H.
  - now rewrite chr_eqb_refl.
Qed.

Lemma accepts_epoch_some d rest g :
  Py.str_isdigit d = true ->
  Accepts epoch_re (d ++ "!") rest g (("epoch", d) :: g).
Proof.
  intros Hd. unfold epoch_re. apply accepts_opt. eapply accepts_cat.
  - apply accepts_group, accepts_plus_digit; auto.
  - apply accepts_chr.
Qed.

Lemma accepts_epoch_none d rest g :
  Py.str_isdigit d = true ->
  stops (fun c => Py.isdigit c || Ascii.eqb c "!") rest = true ->
  Accepts epoch_re "" (d ++ rest) g g.
Proof.
  intros Hd Hrest k x Hk. cbn [append]. apply epoch_none; assumption.
Qed.

Lemma accepts_release d segs rest g :
  Py.str_isdigit d = true ->
  Forall (fun d => Py.str_isdigit d = true) segs ->
  after_release rest = true ->
  Accepts release_re (d ++ dotted segs) rest g
    (("release", d ++ dotted segs) :: g).
Proof. intros Hd Hs Hr k x Hk. apply release_greedy; assumption. Qed.

Ltac mismatch Hc :=
  first [ reflexivity | apply digit_chr_neq; [exact Hc | reflexivity] ].

Ltac reject_word Hc :=
  cbn [append];
  first [ solve [apply (rejects_word ""); mismatch Hc]
        | solve [apply (rejects_word "a" "l" "pha"); mismatch Hc]
        | solve [apply (rejects_word "b" "e" "ta"); mismatch Hc]
        | solve [apply (rejects_word "pre" "v" "iew"); mismatch Hc] ].

Lemma accepts_pre_letter l c n rest g :
  In l pre_spellings -> Py.isdigit c = true ->
  Accepts (words pre_spellings) l (String c n ++ rest) g g.
Proof.
  intros Hl Hc. unfold pre_spellings in *. cbn [words].
  repeat (destruct Hl as [<- | Hl];
    [ repeat first [ apply accepts_word
                   | apply accepts_alt_l; apply accepts_word
                   | apply accepts_alt_r; [reject_word Hc|] ] | ]).
  destruct Hl.
Qed.

Lemma letter_not_sep l s g :
  In l pre_spellings -> Rejects sep (l ++ s) g.
Proof.
  intros Hl. unfold pre_spellings in Hl.
  repeat (destruct Hl as [<- | Hl]; [apply rejects_cls; reflexivity|]).
  destruct Hl.
Qed.

Lemma accepts_pre_some l n rest g :
  In l pre_spellings -> Py.str_isdigit n = true ->
  stops Py.isdigit rest = true ->
  Accepts pre_re (l ++ n) rest g
    (("pre", l ++ n) :: ("pre_n", n) :: ("pre_l", l) :: g).
Proof.
  intros Hl Hn Hrest. unfold pre_re. cbn [cat].
  apply accepts_opt, accepts_group, accepts_skip_then.
  { apply accepts_opt_skip. rewrite append_assoc. now apply letter_not_sep. }
  eapply accepts_cat.
  { apply accepts_group. destruct n as [|c n]; [discriminate|].
    apply accepts_pre_letter; auto.
    simpl in Hn. now apply andb_true_iff in Hn as [Hn _]. }
  apply accepts_skip_then.
  { apply accepts_opt_skip, rejects_cls.
    destruct n as [|c n]; [discriminate|]. simpl in *.
    apply andb_true_iff in Hn as [Hn _]. now rewrite digit_not_sep. }
  apply accepts_opt, accepts_group, accepts_plus_digit; auto.
Qed.

End Pattern.

Section Search.

Variables (e : option string) (d : string) (segs : list string)
          (p : option (string * string)).
Hypothesis He : epoch_ok e.
Hypothesis Hd : Py.str_isdigit d = true.
Hypothesis Hsegs : Forall (fun d => Py.str_isdigit d = true) segs.
Hypothesis Hp : pre_ok p.

Lemma pre_part_letter (q : ascii -> bool) :
  (forall l, In l pre_spellings -> stops q l = true) ->
  stops q (pre_part p ++ "") = true.
Proof.
  intros H. destruct p as [[l n]|]; [|reflexivity].
  destruct Hp as [Hl _]. specialize (H l Hl). simpl.
  unfold pre_spellings in Hl.
  repeat (destruct Hl as [<- | Hl]; [exact H|]). destruct Hl.
Qed.

Lemma after_release_pre_part : after_release (pre_part p ++ "") = true.
Proof.
  apply pre_part_letter.
  intros l Hl. unfold pre_spellings in Hl.
  repeat (destruct Hl as [<- | Hl]; [reflexivity|]). destruct Hl.
Qed.

Lemma accepts_pre_tail g :
  Accepts (cat [pre_re; post_re; dev_re; local_re]) (pre_part p) ""
    g (pre_groups p ++ g)%list.
Proof.
  destruct p as [[l n]|].
  - destruct Hp as [Hl Hn]. cbn [pre_part pre_groups cat].
    eapply accepts_then_skip.
    + apply accepts_pre_some; auto.
    + intros k x Hk. exact Hk.
  - intros k x Hk. exact Hk.
Qed.

Lemma accepts_release_tail g :
  Accepts (cat [release_re; pre_re; post_re; dev_re; local_re])
    (release_part d segs ++ pre_part p) "" g
    (pre_groups p ++ ("release", release_part d segs) :: g)%list.
Proof.
  eapply accepts_cat.
  - apply accepts_release; auto. apply after_release_pre_part.
  - apply accepts_pre_tail.
Qed.

Lemma starts_digit_whole :
  starts_digit ((epoch_part e ++ release_part d segs ++ pre_part p) ++ "") = true.
Proof.
  destruct e as [d0|]; cbn [epoch_part].
  - rewrite !append_assoc. now apply starts_digit_append.
  - cbn [append]. unfold release_part. rewrite !append_assoc.
    now apply starts_digit_append.
Qed.

Lemma stops_bang_rest :
  stops (fun c => Py.isdigit c || Ascii.eqb c "!")
    (dotted segs ++ pre_part p ++ "") = true.
Proof.
  destruct segs as [|s0 segs']; [|reflexivity].
  cbn [dotted append]. apply pre_part_letter.
  intros l Hl. unfold pre_spellings in Hl.
  repeat (destruct Hl as [<- | Hl]; [reflexivity|]). destruct Hl.
Qed.

Lemma accepts_version_pattern :
  Accepts VERSION_PATTERN
    (epoch_part e ++ release_part d segs ++ pre_part p) "" []
    (pre_groups p ++ ("release", release_part d segs) :: epoch_groups e)%list.
Proof.
  unfold VERSION_PATTERN.
  change (cat (?a :: ?b :: ?rest)) with (Cat a (Cat b (cat rest))).
  apply accepts_skip_then.
  { apply accepts_opt_skip. pose proof starts_digit_whole as H.
    destruct ((epoch_part e ++ release_part d segs ++ pre_part p) ++ "")
      as [|c s]; [discriminate|].
    apply rejects_chr_digit; [exact H | reflexivity]. }
  destruct e as [d0|]; cbn [epoch_part epoch_groups].
  - eapply accepts_cat.
    + now apply accepts_epoch_some.
    + apply accepts_release_tail.
  - cbn [append]. apply accepts_skip_then.
    + unfold release_part. rewrite !append_assoc.
      apply accepts_epoch_none; auto. apply stops_bang_rest.
    + apply accepts_release_tail.
Qed.

Lemma search_release_pre :
  search _regex (epoch_part e ++ release_part d segs ++ pre_part p)
  = Some (pre_groups p ++ ("release", release_part d segs) :: epoch_groups e)%list.
Proof.
  unfold search, _regex.
  change (cat [?a; ?b; ?c; ?d]) with (Cat a (Cat b (Cat c d))).
  rewrite <- (append_nil_r (epoch_part e ++ release_part d segs ++ pre_part p)).
  assert (A : Accepts (Cat (Star space) (Cat VERSION_PATTERN (Cat (Star space) Eos)))
                (epoch_part e ++ release_part d segs ++ pre_part p) "" []
                (pre_groups p ++ ("release", release_part d segs) :: epoch_groups e)%list).
  { apply accepts_skip_then.
    - apply accepts_star_skip. pose proof starts_digit_whole as H.
      destruct ((epoch_part e ++ release_part d segs ++ pre_part p) ++ "")
        as [|c s]; [discriminate|]. simpl in *. now rewrite digit_not_space.
    - eapply accepts_then_skip.
      + apply accepts_version_pattern.
      + intros k x Hk. exact Hk. }
  now apply A.
Qed.

End Search.

Section Split.

Lemma split_on_not_nil p s : Py.split_on p s <> [].
Proof.
  destruct s as [|c s]; simpl; [discriminate|].
  destruct (p c); [discriminate|]. destruct (Py.split_on p s); discriminate.
Qed.

Lemma split_on_app p a rest :
  all_chars (fun c => negb (p c)) a = true ->
  Py.split_on p (a ++ rest) =
  (a ++ hd "" (Py.split_on p rest)) :: tl (Py.split_on p rest).
Proof.
  induction a as [|c a IH]; intros H; cbn [append].
  - destruct (Py.split_on p rest) eqn:E; [now apply split_on_not_nil in E|].
    reflexivity.
  - simpl in H. apply andb_true_iff in H as [Hc Ha].
    apply negb_true_iff in Hc. cbn [Py.split_on]. rewrite Hc, (IH Ha).
    reflexivity.
Qed.

Lemma digits_no_dot d :
  Py.str_isdigit d = true ->
  all_chars (fun c => negb (Ascii.eqb "." c)) d = true.
Proof.
  intros H. assert (A : Py.all_digits d = true) by (destruct d; [discriminate | exact H]).
  clear H. induction d as [|c d IH]; [reflexivity|].
  simpl in *. apply andb_true_iff in A as [Hc Hd]. rewrite (IH Hd), andb_true_r.
  revert Hc. clear. destruct c as [[] [] [] [] [] [] [] []]; try discriminate; reflexivity.
Qed.

Lemma split_release d segs :
  Py.str_isdigit d = true ->
  Forall (fun d => Py.str_isdigit d = true) segs ->
  Py.split "." (release_part d segs) = d :: segs.
Proof.
  intros Hd Hsegs. revert d Hd. unfold release_part, Py.split.
  induction Hsegs as [|s segs Hs _ IH]; intros d Hd.
  - rewrite split_on_app by now apply digits_no_dot.
    simpl. now rewrite append_nil_r.
  - rewrite split_on_app by now apply digits_no_dot.
    cbn [dotted append Py.split_on]. replace (Ascii.eqb "." ".") with true by reflexivity.
    cbn [hd tl]. rewrite append_nil_r. now rewrite (IH s Hs).
Qed.

Lemma join_release d segs :
  Py.join "." (d :: segs) = release_part d segs.
Proof.
  unfold release_part. revert d. induction segs as [|s segs IH]; intros d.
  - simpl. now rewrite append_nil_r.
  - change (Py.join "." (d :: s :: segs))
      with (d ++ "." ++ Py.join "." (s :: segs)).
    rewrite IH. reflexivity.
Qed.

End Split.

Section Parse.

Lemma pre_letter_parse l n :
  In l pre_spellings -> Py.str_isdigit n = true ->
  _parse_letter_version (Some l) (Some n) = Some (pre_letter l, Py.int n).
Proof.
  intros Hl Hn. unfold pre_spellings in Hl.
  repeat (destruct Hl as [<- | Hl]; [reflexivity|]). destruct Hl.
Qed.

(** The constructor on a string made of an optional epoch, a release and
    an optional pre-release segment. *)
Lemma parse_release_pre e d segs p :
  epoch_ok e -> Py.str_isdigit d = true ->
  Forall (fun d => Py.str_isdigit d = true) segs -> pre_ok p ->
  parse (epoch_part e ++ release_part d segs ++ pre_part p) =
  Some (plain (match e with Some d0 => Py.int d0 | None => 0 end)
              (map Py.int (d :: segs))
              (match p with
               | Some (l, n) => Some (pre_letter l, Py.int n)
               | None => None
               end)).
Proof.
  intros He Hd Hsegs Hp. unfold parse.
  rewrite search_release_pre by assumption.
  set (G := (pre_groups p ++ ("release", release_part d segs) :: epoch_groups e)%list).
  assert (Ge : group G "epoch" = e) by (destruct p as [[l n]|], e; reflexivity).
  assert (Gr : group G "release" = Some (release_part d segs))
    by (destruct p as [[l n]|], e; reflexivity).
  assert (Gl : group G "pre_l" = option_map fst p)
    by (destruct p as [[l n]|], e; reflexivity).
  assert (Gn : group G "pre_n" = option_map snd p)
    by (destruct p as [[l n]|], e; reflexivity).
  assert (Go : forall name, In name ["post_l"; "post_n1"; "post_n2"; "dev_l";
                                      "dev_n"; "local"] -> group G name = None).
  { intros name H. cbn [In] in H.
    repeat (destruct H as [<- | H]; [destruct p as [[l n]|], e; reflexivity|]).
    destruct H. }
  rewrite Ge, Gr, Gl, Gn, !Go by (cbn [In]; tauto).
  rewrite split_release by assumption.
  unfold plain. f_equal.
  replace (if Py.truthy e then match e with Some e0 => Py.int e0 | None => 0 end else 0)
    with (match e with Some d0 => Py.int d0 | None => 0 end)
    by (destruct e as [[|c d0]|]; [discriminate He | reflexivity | reflexivity]).
  destruct p as [[l n]|]; cbn [option_map fst snd].
  - destruct Hp as [Hl Hn]. now rewrite pre_letter_parse.
  - reflexivity.
Qed.

End Parse.

Section Printed.

Lemma to_str_plain e rel p :
  to_str (plain e rel p) =
  epoch_str (plain e rel p) ++ release_str (plain e rel p) ++ pre_str p.
Proof.
  unfold to_str, plain, pre_str. cbn [pre post dev local].
  destruct p as [[l n]|]; now rewrite ?append_nil_r.
Qed.

Lemma Forall_str_isdigit (ns : list nat) :
  Forall (fun d => Py.str_isdigit d = true) (map Py.str ns).
Proof. induction ns; constructor; auto using str_isdigit_str. Qed.

Lemma map_int_str (ns : list nat) : map Py.int (map Py.str ns) = ns.
Proof. induction ns as [|n ns IH]; simpl; [reflexivity|]. now rewrite int_str, IH. Qed.

(** Parsing what [base_version] and a normal pre-release segment print. *)
Lemma parse_printed e rel p :
  rel <> [] -> pre_normal p ->
  parse (epoch_str (plain e rel p) ++ release_str (plain e rel p) ++ pre_str p)
  = Some (plain e rel p).
Proof.
  intros Hrel Hp. destruct rel as [|r rel]; [congruence|].
  unfold epoch_str, release_str. cbn [epoch release plain map].
  rewrite join_release.
  pose proof (parse_release_pre
                (if e =? 0 then None else Some (Py.str e))
                (Py.str r) (map Py.str rel)
                (match p with Some (l, n) => Some (l, Py.str n) | None => None end)) as P.
  replace (epoch_part (if e =? 0 then None else Some (Py.str e)))
    with (if e =? 0 then "" else Py.str e ++ "!") in P
    by (destruct (e =? 0); reflexivity).
  replace (pre_part match p with Some (l, n) => Some (l, Py.str n) | None => None end)
    with (pre_str p) in P by (destruct p as [[l n]|]; reflexivity).
  rewrite P; clear P.
  - f_equal. unfold plain. f_equal.
    + destruct (e =? 0) eqn:E; [apply Nat.eqb_eq in E; auto | apply int_str].
    + change (map Py.int (Py.str r :: map Py.str rel))
        with (map Py.int (map Py.str (r :: rel))).
      apply map_int_str.
    + destruct p as [[l n]|]; [|reflexivity].
      rewrite int_str. unfold pre_normal, normal_letters in Hp.
      repeat (destruct Hp as [<- | Hp]; [reflexivity|]). destruct Hp.
  - destruct (e =? 0); simpl; auto using str_isdigit_str.
  - apply str_isdigit_str.
  - apply Forall_str_isdigit.
  - destruct p as [[l n]|]; simpl; [|exact I]. split; [|apply str_isdigit_str].
    unfold pre_normal, normal_letters in Hp. unfold pre_spellings.
    cbn [In] in *. tauto.
Qed.

(** Round trip through [str] and the constructor. *)
Lemma parse_to_str_plain e rel p :
  rel <> [] -> pre_normal p ->
  parse (to_str (plain e rel p)) = Some (plain e rel p).
Proof. intros. rewrite to_str_plain. now apply parse_printed. Qed.

End Printed.

Section Bump.

Lemma Version_release_only (d : string) (segs : list string) :
  Py.str_isdigit d = true ->
  Forall (fun d => Py.str_isdigit d = true) segs ->
  Version_ (release_part d segs) =
  Ok (plain 0 (map Py.int (d :: segs)) None).
Proof.
  intros Hd Hs. unfold Version_.
  pose proof (parse_release_pre None d segs None I Hd Hs I) as P.
  cbn [epoch_part pre_part append] in P. rewrite append_nil_r in P.
  now rewrite P.
Qed.

Lemma bump_major (current : Version) :
  bump_version current "major" = Ok (plain 0 [major current + 1; 0; 0] None).
Proof.
  unfold bump_version. cbn [String.eqb Ascii.eqb Bool.eqb].
  change (Py.str (major current + 1) ++ ".0.0")
    with (release_part (Py.str (major current + 1)) ["0"; "0"]).
  rewrite Version_release_only.
  - cbn [map]. now rewrite int_str.
  - apply str_isdigit_str.
  - repeat constructor.
Qed.

Lemma bump_minor (current : Version) :
  bump_version current "minor" =
  Ok (plain 0 [major current; minor current + 1; 0] None).
Proof.
  unfold bump_version. cbn [String.eqb Ascii.eqb Bool.eqb].
  change (Py.str (major current) ++ "." ++ Py.str (minor current + 1) ++ ".0")
    with (release_part (Py.str (major current))
            [Py.str (minor current + 1); "0"]).
  rewrite Version_release_only.
  - cbn [map]. now rewrite !int_str.
  - apply str_isdigit_str.
  - repeat constructor. apply str_isdigit_str.
Qed.

Lemma patch_string (a b c : string) :
  a ++ "." ++ b ++ "." ++ c = release_part a [b; c].
Proof. unfold release_part. cbn [dotted]. now rewrite append_nil_r. Qed.

Lemma Version_patch (current : Version) :
  Version_ (Py.str (major current) ++ "." ++ Py.str (minor current) ++ "."
            ++ Py.str (micro current + 1)) =
  Ok (plain 0 [major current; minor current; micro current + 1] None).
Proof.
  rewrite patch_string, Version_release_only.
  - cbn [map]. now rewrite !int_str.
  - apply str_isdigit_str.
  - repeat constructor; apply str_isdigit_str.
Qed.

Lemma bump_patch (current : Version) :
  bump_version current "patch" =
  Ok (plain 0 [major current; minor current; micro current + 1] None).
Proof.
  unfold bump_version. cbn [String.eqb Ascii.eqb Bool.eqb]. apply Version_patch.
Qed.

Lemma bump_unknown (current : Version) (bump_type : string) :
  str_in bump_type ["major"; "minor"; "patch"; "bump"] = false ->
  bump_version current bump_type =
  Raise (UvbumpError ("Unknown bump type: " ++ bump_type)).
Proof.
  unfold str_in, bump_version. cbn [existsb]. intros H.
  rewrite !orb_false_iff in H. destruct H as (H1 & H2 & H3 & H4 & _).
  now rewrite H1, H2, H3, H4.
Qed.

Lemma bump_pre (current : Version) (l : string) (n : nat) :
  release current <> [] -> pre current = Some (l, n) -> In l normal_letters ->
  bump_version current "bump" =
  Ok (plain (epoch current) (release current) (Some (l, n + 1))).
Proof.
  intros Hrel Hpre Hl. unfold bump_version. cbn [String.eqb Ascii.eqb Bool.eqb].
  unfold is_prerelease. rewrite Hpre.
  replace (match dev current with Some _ | _ => true end) with true
    by (destruct (dev current); reflexivity).
  unfold base_version. rewrite append_assoc.
  pose proof (parse_printed (epoch current) (release current) (Some (l, n + 1))
                Hrel Hl) as P.
  unfold Version_. cbn [pre_str] in P.
  unfold epoch_str, release_str in *. cbn [plain epoch release] in P.
  now rewrite P.
Qed.

Lemma bump_no_pre (current : Version) :
  is_prerelease current = true -> pre current = None ->
  bump_version current "bump" =
  Raise (UvbumpError
           "Cannot bump pre-release version without pre-release number").
Proof.
  intros H1 H2. unfold bump_version. cbn [String.eqb Ascii.eqb Bool.eqb].
  now rewrite H1, H2.
Qed.

Lemma bump_final (current : Version) :
  is_prerelease current = false ->
  bump_version current "bump" = bump_version current "patch".
Proof.
  intros H. unfold bump_version. cbn [String.eqb Ascii.eqb Bool.eqb].
  now rewrite H.
Qed.

End Bump.

Section Soundness.

Lemma star_loop_sound (m : string -> groups -> cont -> option groups)
    (R : string -> groups -> string -> groups -> Prop) :
  (forall s g k x, m s g k = Some x ->
     exists s' g', R s g s' g' /\ k s' g' = Some x) ->
  forall n k s g x, star_loop m k n s g = Some x ->
    exists s' g', iter R s g s' g' /\ k s' g' = Some x.
Proof.
  intros Hm. induction n as [|n IH]; intros k s g x H; cbn [star_loop] in H.
  - exists s, g. split; [constructor | assumption].
  - destruct (m s g _) as [y|] eqn:E.
    + injection H as ->. apply Hm in E as (s1 & g1 & HR & E).
      destruct (String.length s1 <? String.length s); [|discriminate].
      apply IH in E as (s2 & g2 & Hit & E).
      exists s2, g2. split; [econstructor; eassumption | assumption].
    + exists s, g. split; [constructor | assumption].
Qed.

Lemma rmatch_sound (r : regex) :
  forall s g k x, rmatch r s g k = Some x ->
    exists s' g', sem r s g s' g' /\ k s' g' = Some x.
Proof.
  induction r as [|c|p|r1 IH1 r2 IH2|r1 IH1 r2 IH2|r1 IH1|r1 IH1|name r1 IH1|];
    intros s g k x H; cbn [rmatch] in H; cbn [sem].
  - exists s, g. auto.
  - destruct s as [|a s]; [discriminate|].
    destruct (chr_eqb a c) eqn:E; [|discriminate].
    exists s, g. split; [exists a; auto | assumption].
  - destruct s as [|a s]; [discriminate|].
    destruct (p a) eqn:E; [|discriminate].
    exists s, g. split; [exists a; auto | assumption].
  - apply IH1 in H as (s1 & g1 & H1 & H). apply IH2 in H as (s2 & g2 & H2 & H).
    exists s2, g2. split; [exists s1, g1; auto | assumption].
  - destruct (rmatch r1 s g k) as [y|] eqn:E.
    + injection H as ->. apply IH1 in E as (s1 & g1 & H1 & E).
      exists s1, g1. auto.
    + apply IH2 in H as (s1 & g1 & H1 & E').
      exists s1, g1. auto.
  - destruct (rmatch r1 s g k) as [y|] eqn:E.
    + injection H as ->. apply IH1 in E as (s1 & g1 & H1 & E).
      exists s1, g1. auto.
    + exists s, g. auto.
  - eapply star_loop_sound; eauto.
  - apply IH1 in H as (s1 & g1 & H1 & H).
    eexists s1, _. split; [exists g1; split; [exact H1 | reflexivity] | exact H].
  - destruct s as [|a [|b s]]; try discriminate.
    + exists "", g. auto.
    + destruct (Ascii.eqb a "010"); [|discriminate].
      exists (String a ""), g. auto.
Qed.

Lemma search_sound (r : regex) (s : string) (G : groups) :
  search r s = Some G -> exists s', sem r s [] s' G.
Proof.
  intros H. apply rmatch_sound in H as (s' & g' & H & E).
  injection E as ->. eauto.
Qed.

(** A match only adds bindings, and only for its own groups. *)
Lemma sem_groups (r : regex) :
  forall s g s' g', sem r s g s' g' ->
    exists new, g' = (new ++ g)%list /\
                Forall (fun b => In (fst b) (names r)) new.
Proof.
  induction r as [|c|p|r1 IH1 r2 IH2|r1 IH1 r2 IH2|r1 IH1|r1 IH1|name r1 IH1|];
    intros s g s' g' H; cbn [sem names] in *.
  - destruct H as [_ ->]. now exists [].
  - destruct H as (a & _ & _ & ->). now exists [].
  - destruct H as (a & _ & _ & ->). now exists [].
  - destruct H as (s1 & g1 & H1 & H2).
    apply IH1 in H1 as (n1 & -> & F1). apply IH2 in H2 as (n2 & -> & F2).
    exists (n2 ++ n1)%list. split; [now rewrite app_assoc|].
    apply Forall_app. split; eapply Forall_impl; try eassumption;
      intros b Hb; apply in_or_app; auto.
  - destruct H as [H|H]; [apply IH1 in H | apply IH2 in H];
      destruct H as (n & -> & F); exists n; (split; [reflexivity|]);
      eapply Forall_impl; try eassumption; intros b Hb; apply in_or_app; auto.
  - destruct H as [H|[_ ->]]; [now apply IH1 in H | now exists []].
  - induction H as [s g | s g s1 g1 s2 g2 H1 _ IH].
    + now exists [].
    + apply IH1 in H1 as (n1 & -> & F1). destruct IH as (n2 & -> & F2).
      exists (n2 ++ n1)%list. split; [now rewrite app_assoc|].
      apply Forall_app. now split.
  - destruct H as (g1 & H & ->). apply IH1 in H as (n & -> & F).
    exists ((name, substring 0 (String.length s - String.length s') s) :: n).
    split; [reflexivity|]. constructor; [now left|].
    eapply Forall_impl; try eassumption. intros b Hb. now right.
  - destruct H as [_ ->]. now exists [].
Qed.

Lemma str_in_In (x : string) (xs : list string) :
  str_in x xs = false -> ~ In x xs.
Proof.
  unfold str_in. induction xs as [|y xs IH]; cbn [existsb In]; [tauto|].
  intros H. apply orb_false_iff in H as [H1 H2].
  apply String.eqb_neq in H1. intros [E|E]; [congruence | now apply IH].
Qed.

Lemma group_app_other (new g : groups) (ns : list string) (name : string) :
  Forall (fun b => In (fst b) ns) new -> str_in name ns = false ->
  group (new ++ g)%list name = group g name.
Proof.
  intros F H. apply str_in_In in H.
  induction F as [|[n v] new Hn _ IH]; [reflexivity|].
  cbn [List.app group]. destruct (String.eqb_spec n name) as [->|]; [|exact IH].
  now elim H.
Qed.

(** A group keeps its value across a pattern that does not bind it. *)
Lemma sem_keeps (r : regex) (name : string) s g s' g' :
  sem r s g s' g' -> str_in name (names r) = false ->
  group g' name = group g name.
Proof.
  intros H Hn. apply sem_groups in H as (new & -> & F).
  eapply group_app_other; eassumption.
Qed.

End Soundness.

Section Grammar.

Lemma star_loop_lang (m : string -> groups -> cont -> option groups)
    (R : string -> string -> Prop) :
  (forall s g k x, m s g k = Some x ->
     exists s' g', R s s' /\ k s' g' = Some x) ->
  forall n k s g x, star_loop m k n s g = Some x ->
    exists s' g', rounds R s s' /\ k s' g' = Some x.
Proof.
  intros Hm. induction n as [|n IH]; intros k s g x H; cbn [star_loop] in H.
  - exists s, g. split; [constructor | assumption].
  - destruct (m s g _) as [y|] eqn:E.
    + injection H as ->. apply Hm in E as (s1 & g1 & HR & E).
      destruct (String.length s1 <? String.length s); [|discriminate].
      apply IH in E as (s2 & g2 & Hit & E).
      exists s2, g2. split; [econstructor; eassumption | assumption].
    + exists s, g. split; [constructor | assumption].
Qed.

(** What the matcher accepts is in the language. *)
Lemma rmatch_lang (r : regex) :
  forall s g k x, rmatch r s g k = Some x ->
    exists s' g', lang r s s' /\ k s' g' = Some x.
Proof.
  induction r as [|c|p|r1 IH1 r2 IH2|r1 IH1 r2 IH2|r1 IH1|r1 IH1|name r1 IH1|];
    intros s g k x H; cbn [rmatch] in H; cbn [lang].
  - exists s, g. auto.
  - destruct s as [|a s]; [discriminate|].
    destruct (chr_eqb a c) eqn:E; [|discriminate].
    exists s, g. split; [exists a; auto | assumption].
  - destruct s as [|a s]; [discriminate|].
    destruct (p a) eqn:E; [|discriminate].
    exists s, g. split; [exists a; auto | assumption].
  - apply IH1 in H as (s1 & g1 & H1 & H). apply IH2 in H as (s2 & g2 & H2 & H).
    exists s2, g2. split; [exists s1; auto | assumption].
  - destruct (rmatch r1 s g k) as [y|] eqn:E.
    + injection H as ->. apply IH1 in E as (s1 & g1 & H1 & E).
      exists s1, g1. auto.
    + apply IH2 in H as (s1 & g1 & H1 & E').
      exists s1, g1. auto.
  - destruct (rmatch r1 s g k) as [y|] eqn:E.
    + injection H as ->. apply IH1 in E as (s1 & g1 & H1 & E).
      exists s1, g1. auto.
    + exists s, g. auto.
  - eapply star_loop_lang; eauto.
  - apply IH1 in H as (s1 & g1 & H1 & H). eauto.
  - destruct s as [|a [|b s]]; try discriminate.
    + exists "", g. auto.
    + destruct (Ascii.eqb_spec a "010") as [->|]; [|discriminate].
      exists (String "010" ""), g. auto.
Qed.

Lemma star_loop_uniform (m : string -> groups -> cont -> option groups) :
  (forall k, uniform k -> uniform (fun s g => m s g k)) ->
  forall n k, uniform k -> uniform (star_loop m k n).
Proof.
  intros Hm. induction n as [|n IH]; intros k Hk s g1 g2 H;
    cbn [star_loop] in *.
  - eapply Hk; eassumption.
  - set (K := fun (s' : string) (g' : groups) =>
                if String.length s' <? String.length s
                then star_loop m k n s' g' else None) in *.
    assert (UK : uniform K).
    { intros s' h1 h2. unfold K.
      destruct (String.length s' <? String.length s); [|reflexivity].
      apply IH. exact Hk. }
    destruct (m s g1 K) eqn:E1; [discriminate|].
    rewrite (Hm K UK s g1 g2 E1). eapply Hk; eassumption.
Qed.

(** Whether a pattern matches does not depend on the groups bound so far. *)
Lemma rmatch_uniform (r : regex) :
  forall k, uniform k -> uniform (fun s g => rmatch r s g k).
Proof.
  induction r as [|c|p|r1 IH1 r2 IH2|r1 IH1 r2 IH2|r1 IH1|r1 IH1|name r1 IH1|];
    intros k Hk s g1 g2 H; cbn [rmatch] in *.
  - eapply Hk; eassumption.
  - destruct s as [|a s]; [reflexivity|].
    destruct (chr_eqb a c); [eapply Hk; eassumption | reflexivity].
  - destruct s as [|a s]; [reflexivity|].
    destruct (p a); [eapply Hk; eassumption | reflexivity].
  - apply (IH1 (fun s' g' => rmatch r2 s' g' k) (IH2 k Hk) s g1 g2 H).
  - destruct (rmatch r1 s g1 k) eqn:E1; [discriminate|].
    rewrite (IH1 k Hk s g1 g2 E1). apply (IH2 k Hk s g1 g2 H).
  - destruct (rmatch r1 s g1 k) eqn:E1; [discriminate|].
    rewrite (IH1 k Hk s g1 g2 E1). eapply Hk; eassumption.
  - apply (star_loop_uniform (rmatch r1) IH1 _ k Hk s g1 g2 H).
  - refine (IH1 (fun s' g' => k s' ((name, _) :: g')) _ s g1 g2 H).
    intros s' h1 h2 E. eapply Hk; eassumption.
  - destruct s as [|a [|b s]]; try reflexivity; [eapply Hk; eassumption|].
    destruct (Ascii.eqb a "010"); [eapply Hk; eassumption | reflexivity].
Qed.

Lemma rounds_suffix (R : string -> string -> Prop) :
  (forall s s', R s s' -> exists a, s = a ++ s') ->
  forall s s', rounds R s s' -> exists a, s = a ++ s'.
Proof.
  intros HR s s' H. induction H as [s | s s1 s2 H1 _ (b & ->)].
  - now exists "".
  - apply HR in H1 as (a & ->). exists (a ++ b). now rewrite append_assoc.
Qed.

(** What a pattern leaves is a suffix of the subject. *)
Lemma lang_suffix (r : regex) :
  forall s s', lang r s s' -> exists a, s = a ++ s'.
Proof.
  induction r as [|c|p|r1 IH1 r2 IH2|r1 IH1 r2 IH2|r1 IH1|r1 IH1|name r1 IH1|];
    intros s s' H; cbn [lang] in H.
  - subst. now exists "".
  - destruct H as (a & -> & _). now exists (String a "").
  - destruct H as (a & -> & _). now exists (String a "").
  - destruct H as (s1 & H1 & H2).
    apply IH1 in H1 as (a & ->). apply IH2 in H2 as (b & ->).
    exists (a ++ b). now rewrite append_assoc.
  - destruct H as [H|H]; [now apply IH1 | now apply IH2].
  - destruct H as [H| ->]; [now apply IH1 | now exists ""].
  - eapply rounds_suffix; eauto.
  - now apply IH1.
  - destruct H as [-> _]. now exists "".
Qed.

Lemma suffix_same_length (a s : string) :
  ~ String.length s < String.length (a ++ s) -> a ++ s = s.
Proof.
  rewrite length_append. destruct a; [reflexivity|]. cbn. lia.
Qed.

Lemma star_loop_complete (m : string -> groups -> cont -> option groups)
    (R : string -> string -> Prop) (k : cont) :
  (forall s s', R s s' -> exists a, s = a ++ s') ->
  (forall s s', R s s' -> forall k', uniform k' ->
     (forall g, k' s' g <> None) -> forall g, m s g k' <> None) ->
  (forall k', uniform k' -> uniform (fun s g => m s g k')) ->
  uniform k ->
  forall s s', rounds R s s' -> (forall g, k s' g <> None) ->
  forall n g, String.length s <= n -> star_loop m k n s g <> None.
Proof.
  intros Hsuf Hm Hu Hk s s' H Hs'.
  induction H as [s | s s1 s2 H1 H2 IH]; intros n g Hn.
  - destruct n as [|n]; cbn [star_loop]; [apply Hs'|].
    destruct (m s g _); [discriminate | apply Hs'].
  - specialize (IH Hs').
    destruct (Nat.lt_ge_cases (String.length s1) (String.length s)) as [L|L].
    + destruct n as [|n]; [lia|]. cbn [star_loop].
      set (K := fun (s' : string) (g' : groups) =>
                  if String.length s' <? String.length s
                  then star_loop m k n s' g' else None).
      assert (UK : uniform K).
      { intros t h1 h2. unfold K.
        destruct (String.length t <? String.length s); [|reflexivity].
        apply star_loop_uniform; assumption. }
      assert (N : m s g K <> None).
      { apply (Hm s s1 H1 K UK). intros h. unfold K.
        apply Nat.ltb_lt in L. rewrite L. apply IH.
        apply Nat.ltb_lt in L. lia. }
      destruct (m s g K); [discriminate | contradiction].
    + apply Hsuf in H1 as (a & ->).
      rewrite suffix_same_length in * by lia.
      now apply IH.
Qed.

(** What is in the language the matcher accepts, whatever it tries
    first. *)
Lemma lang_rmatch (r : regex) :
  forall s s', lang r s s' ->
    forall k, uniform k -> (forall g, k s' g <> None) ->
    forall g, rmatch r s g k <> None.
Proof.
  induction r as [|c|p|r1 IH1 r2 IH2|r1 IH1 r2 IH2|r1 IH1|r1 IH1|name r1 IH1|];
    intros s s' H k Hk Hs' g; cbn [lang] in H; cbn [rmatch].
  - subst. apply Hs'.
  - destruct H as (a & -> & E). rewrite E. apply Hs'.
  - destruct H as (a & -> & E). rewrite E. apply Hs'.
  - destruct H as (s1 & H1 & H2).
    apply (IH1 s s1 H1 (fun s' g' => rmatch r2 s' g' k)).
    + now apply rmatch_uniform.
    + intros h. now apply (IH2 s1 s' H2).
  - destruct H as [H|H].
    + pose proof (IH1 s s' H k Hk Hs' g) as N.
      destruct (rmatch r1 s g k); [discriminate | contradiction].
    + destruct (rmatch r1 s g k); [discriminate|]. now apply (IH2 s s' H).
  - destruct H as [H| ->].
    + pose proof (IH1 s s' H k Hk Hs' g) as N.
      destruct (rmatch r1 s g k); [discriminate | contradiction].
    + destruct (rmatch r1 s g k); [discriminate | apply Hs'].
  - apply (star_loop_complete (rmatch r1) (lang r1) k (lang_suffix r1) IH1
             (rmatch_uniform r1) Hk s s' H Hs'). lia.
  - apply (IH1 s s' H).
    + intros t h1 h2 E. eapply Hk; eassumption.
    + intros h. apply Hs'.
  - destruct H as [-> [-> | ->]]; [apply Hs'|].
    cbn. apply Hs'.
Qed.

(** The constructor accepts exactly the strings of the grammar. *)
Lemma parse_pep440 (s : string) :
  (exists v, parse s = Some v) <-> pep440 s.
Proof.
  unfold parse, pep440, search. split.
  - intros (v & H).
    destruct (rmatch _regex s [] _) as [G|] eqn:E; [|discriminate].
    apply rmatch_lang in E as (s' & g' & L & _). eauto.
  - intros (s' & L).
    assert (N : rmatch _regex s [] (fun _ g => Some g) <> None).
    { apply (lang_rmatch _regex s s' L).
      - intros t g1 g2. discriminate.
      - intros g. discriminate. }
    destruct (rmatch _regex s [] (fun _ g => Some g)) as [G|];
      [eauto | contradiction].
Qed.

End Grammar.

Section Constructed.

Lemma sem_word (w : string) :
  forall s g s' g', sem (Word w) s g s' g' ->
    exists a, s = a ++ s' /\ Py.lower a = Py.lower w /\ g' = g.
Proof.
  induction w as [|c w IH]; intros s g s' g' H; cbn [Word sem] in H.
  - destruct H as [-> ->]. now exists "".
  - destruct H as (s1 & g1 & (a & -> & E & ->) & H).
    apply IH in H as (b & -> & L & ->).
    exists (String a b). cbn [append Py.lower]. repeat split.
    unfold chr_eqb in E. apply Ascii.eqb_eq in E. now rewrite E, L.
Qed.

Lemma sem_words (ws : list string) :
  forall s g s' g', sem (words ws) s g s' g' ->
    exists a, s = a ++ s' /\ In (Py.lower a) (map Py.lower ws) /\ g' = g.
Proof.
  induction ws as [|w ws IH]; intros s g s' g' H.
  - cbn [words sem] in H. destruct H as (a & _ & F & _). discriminate.
  - destruct ws as [|w' ws].
    + apply sem_word in H as (a & -> & L & ->).
      exists a. repeat split. now left.
    + change (words (w :: w' :: ws)) with (Alt (Word w) (words (w' :: ws))) in H.
      destruct H as [H|H].
      * apply sem_word in H as (a & -> & L & ->).
        exists a. repeat split. now left.
      * apply IH in H as (a & -> & L & ->).
        exists a. repeat split. now right.
Qed.

Lemma letter_normal (w : string) (number : option string) :
  In (Py.lower w) pre_spellings ->
  exists l n, _parse_letter_version (Some w) number = Some (l, n)
              /\ In l normal_letters.
Proof.
  intros H. unfold _parse_letter_version.
  assert (T : Py.truthy (Some w) = true).
  { destruct w; [|reflexivity]. cbn in H. intuition discriminate. }
  rewrite T. unfold pre_spellings in H. unfold normal_letters.
  repeat (destruct H as [<- | H];
          [eexists _, _; split; [reflexivity | cbn; tauto]|]).
  destruct H.
Qed.

(** Every version the constructor returns has a release segment and a
    normal pre-release letter. *)
Lemma parse_valid (s : string) (v : Version) :
  parse s = Some v -> release v <> [] /\ pre_normal (pre v).
Proof.
  unfold parse. destruct (search _regex s) as [G|] eqn:E; [|discriminate].
  intros [= <-]. cbn [release pre].
  apply search_sound in E as (s' & H).
  unfold _regex, VERSION_PATTERN in H.
  change (cat [?a; ?b; ?c; ?d]) with (Cat a (Cat b (cat [c; d]))) in H.
  change (cat (?a :: ?b :: ?c :: ?d :: ?rest))
    with (Cat a (Cat b (Cat c (Cat d (cat rest))))) in H.
  destruct H as (s1 & g1 & H0 & (s2 & g2 & Hvp & Htail)).
  destruct Hvp as (sa & ga & Hv & (sb & gb & Hep & (sc & gc & Hrel
                  & (sd & gd & Hpre & Hpost)))).
  assert (K0 : forall name,
             str_in name ["epoch"; "release"] = false -> group gb name = None).
  { intros name Hn.
    rewrite (sem_keeps _ name _ _ _ _ Hep)
      by (cbn in *; now apply orb_false_iff in Hn as [-> _]).
    rewrite (sem_keeps _ name _ _ _ _ Hv) by reflexivity.
    now rewrite (sem_keeps _ name _ _ _ _ H0). }
  assert (K1 : forall name,
             str_in name ["pre"; "pre_l"; "pre_n"] = true ->
             group G name = group gd name).
  { intros name Hn.
    rewrite (sem_keeps _ name _ _ _ _ Htail) by reflexivity.
    apply (sem_keeps _ name _ _ _ _ Hpost).
    cbn in Hn. rewrite !orb_true_iff in Hn.
    destruct Hn as [Hn|[Hn|[Hn|Hn]]]; try discriminate;
      apply String.eqb_eq in Hn; subst; reflexivity. }
  assert (Kr : exists r, group G "release" = Some r).
  { rewrite (sem_keeps _ "release" _ _ _ _ Htail) by reflexivity.
    rewrite (sem_keeps _ "release" _ _ _ _ Hpost) by reflexivity.
    rewrite (sem_keeps _ "release" _ _ _ _ Hpre) by reflexivity.
    destruct Hrel as (g' & _ & ->). cbn. eauto. }
  assert (Kc : forall name, str_in name ["pre_l"; "pre_n"] = true ->
                            group gc name = None).
  { intros name Hn.
    rewrite (sem_keeps _ name _ _ _ _ Hrel).
    - apply K0. cbn in Hn |- *. rewrite !orb_true_iff in Hn.
      destruct Hn as [Hn|[Hn|Hn]]; try discriminate;
        apply String.eqb_eq in Hn; subst; reflexivity.
    - cbn in Hn |- *. rewrite !orb_true_iff in Hn.
      destruct Hn as [Hn|[Hn|Hn]]; try discriminate;
        apply String.eqb_eq in Hn; subst; reflexivity. }
  split.
  - destruct Kr as (r & ->). unfold Py.split.
    pose proof (split_on_not_nil (Ascii.eqb ".") r).
    destruct (Py.split_on (Ascii.eqb ".") r); [congruence | discriminate].
  - rewrite !K1 by reflexivity.
    destruct Hpre as [(gq & Hbody & ->) | [-> ->]].
    + unfold pre_re in Hbody. cbn [cat] in Hbody.
      destruct Hbody as (t1 & h1 & H1 & (t2 & h2 & (hw & Hw & ->) & H3)).
      change (group (("pre", ?x) :: ?g) "pre_l") with (group g "pre_l").
      rewrite (sem_keeps _ "pre_l" _ _ _ _ H3) by reflexivity.
      cbn [group String.eqb Ascii.eqb Bool.eqb].
      apply sem_words in Hw as (a & -> & L & ->).
      rewrite substring_consumed.
      match goal with
      | |- pre_normal (_parse_letter_version (Some a) ?num) =>
          destruct (letter_normal a num L) as (l & n & -> & Hl)
      end.
      exact Hl.
    + rewrite !Kc by reflexivity. exact I.
Qed.

End Constructed.

Section OrderLaws.

#[export] Instance nat_PyOrdLaw : PyOrdLaw nat.
Proof.
  intros x y _. change (Nat.leb x y = negb (Nat.ltb y x)).
  now rewrite Nat.ltb_antisym, negb_involutive.
Qed.

#[export] Instance string_PyOrdLaw : PyOrdLaw string.
Proof.
  intros x y _. change (String.leb x y = negb (String.ltb y x)).
  unfold String.leb, String.ltb.
  rewrite (String.compare_antisym x y).
  destruct (String.compare y x); reflexivity.
Qed.

#[export] Instance ext_PyOrdLaw {A} `{PyOrdLaw A} : PyOrdLaw (ext A).
Proof.
  intros [|a|] [|b|] E; cbn in *; try reflexivity; try discriminate.
  now apply le_not_gt.
Qed.

Lemma pair_le_not_gt {A B} `{PyOrdLaw A} `{PyOrdLaw B} (x y : A * B) :
  py_le x y = negb (py_gt x y).
Proof.
  cbn. destruct (py_eq (fst x) (fst y)) eqn:E1; cbn.
  - destruct (py_eq (snd x) (snd y)) eqn:E2; cbn; [reflexivity|].
    now apply le_not_gt.
  - now apply le_not_gt.
Qed.

#[export] Instance pair_PyOrdLaw {A B} `{PyOrdLaw A} `{PyOrdLaw B}
  : PyOrdLaw (A * B).
Proof. intros x y _. apply pair_le_not_gt. Qed.

Lemma tuple_le_not_gt {A} `{PyOrdLaw A} (xs ys : list A) :
  tuple_le xs ys = negb (tuple_gt xs ys).
Proof.
  revert ys. induction xs as [|x xs IH]; intros [|y ys]; cbn; try reflexivity.
  destruct (py_eq x y) eqn:E; cbn; [apply IH | now apply le_not_gt].
Qed.

#[export] Instance tuple_PyOrdLaw {A} `{PyOrdLaw A} : PyOrdLaw (list A).
Proof. intros x y _. apply tuple_le_not_gt. Qed.

(** [next <= current] holds exactly when [next > current] does not. *)
Lemma Version_le_not_gt (a b : Version) : Key.le a b = negb (Key.gt a b).
Proof. unfold Key.le, Key.gt. apply pair_le_not_gt. Qed.

Lemma epoch_lt_le (a b : Version) :
  epoch a < epoch b -> Key.le a b = true /\ Key.lt a b = true /\ Key.gt a b = false.
Proof.
  intros H. unfold Key.le, Key.lt, Key.gt, Key._key, Key._cmpkey.
  cbn [py_le py_lt py_gt pair_PyOrd fst snd py_eq nat_PyOrd].
  assert (E : (epoch a =? epoch b) = false) by (apply Nat.eqb_neq; lia).
  rewrite E. cbn [negb].
  repeat split; [apply Nat.leb_le | apply Nat.ltb_lt | apply Nat.ltb_ge]; lia.
Qed.

End OrderLaws.

Section Run.

(** The run of [update_version] on a manifest that holds a version string,
    step by step. *)
Lemma update_version_run nv t d w f items s :
  file_get (files w) (path_str (manifest_path w)) = Some f ->
  dict_get (content f) "project" = Some (TTable items) ->
  dict_get items "version" = Some (TStr s) ->
  update_version nv t d w =
  match validate_version s with
  | Raise e => (Raise e, w)
  | Ok current =>
      match requested current nv with
      | Raise e => (Raise e, w)
      | Ok next =>
          if Key.le next current then (Raise (not_advancing next current), w)
          else
            match repo w with
            | None => (Raise (UvbumpError "Not a git repository"), w)
            | Some r =>
                match check_git_status r with
                | Raise e => (Raise e, w)
                | Ok _ =>
                    if d then (Ok (info_of w s next t), w)
                    else mutate w f items r s next t
                end
            end
      end
  end.
Proof.
  intros Hf Hp Hv.
  unfold update_version, load_pyproject_toml, bind, get_world, lift, ret, raise.
  fold (manifest_path w). rewrite Hf, Hp.
  unfold toml_in, toml_item. cbn [dict_get String.eqb Ascii.eqb Bool.eqb].
  rewrite Hv, Hp, Hv.
  destruct (validate_version s) as [current|e]; [|reflexivity].
  unfold requested.
  destruct (str_in nv ["major"; "minor"; "patch"; "bump"]);
  unfold lift;
  [destruct (bump_version current nv) as [next|e]
  |destruct (validate_version nv) as [next|e]];
  try reflexivity;
  (destruct (Key.le next current); [reflexivity|];
   unfold open_repo, bind, get_world, ret, raise;
   destruct (repo w) as [r|] eqn:Hr; [|reflexivity];
   destruct (check_git_status r) as [[]|e]; [|reflexivity];
   destruct d; cbn [negb]; [reflexivity|];
   unfold mutate, save_pyproject_toml, with_repo, bind, get_world, put_world,
     lift, ret, raise;
   rewrite Hf; destruct (writable f); [|reflexivity];
   cbn [repo option_map cwd files name manifest_path];
   rewrite Hr;
   cbn [repo option_map cwd files name manifest_path tag info_of];
   unfold committed, rewritten;
   destruct (Git.create_tag _ _) as [r'|e]; reflexivity).
Qed.

End Run.

Section Manifest.

Lemma manifest_version_inv (w : World) (s : string) :
  manifest_version w = Some s ->
  exists f items,
    file_get (files w) (path_str (manifest_path w)) = Some f /\
    dict_get (content f) "project" = Some (TTable items) /\
    dict_get items "version" = Some (TStr s).
Proof.
  unfold manifest_version. intros H.
  destruct (file_get _ _) as [f|]; [|discriminate].
  destruct (dict_get (content f) "project") as [[| |items]|] eqn:Ep;
    try discriminate.
  destruct (dict_get items "version") as [[s0| |]|] eqn:Ev; try discriminate.
  injection H as ->. eauto.
Qed.

Lemma dict_get_set (d : dict) (key : string) (v : toml) :
  dict_get (dict_set d key v) key = Some v.
Proof.
  induction d as [|[k v0] d IH]; cbn [dict_set dict_get].
  - now rewrite String.eqb_refl.
  - destruct (String.eqb k key) eqn:E; cbn [dict_get]; now rewrite E.
Qed.

Lemma file_get_set (fs : list (string * File)) (p : string) (f : File) :
  file_get (file_set fs p f) p = Some f.
Proof.
  induction fs as [|[q f0] fs IH]; cbn [file_set file_get].
  - now rewrite String.eqb_refl.
  - destruct (String.eqb q p) eqn:E; cbn [file_get]; now rewrite E.
Qed.

Lemma manifest_version_rewritten w f items next r :
  manifest_version
    {| cwd := cwd w;
       files := file_set (files w) (path_str (manifest_path w))
                  (rewritten f items next);
       repo := r |} = Some (to_str next).
Proof.
  unfold manifest_version, manifest_path. cbn [cwd files].
  rewrite file_get_set. unfold rewritten. cbn [content].
  now rewrite !dict_get_set.
Qed.

End Manifest.

Section Mutation.

Lemma validate_version_error s e :
  validate_version s = Raise e -> mutation_error e = false.
Proof. unfold validate_version. destruct (parse s); [discriminate|]. now intros [= <-]. Qed.

Lemma bump_version_error v kw e :
  bump_version v kw = Raise e -> mutation_error e = false.
Proof.
  unfold bump_version, Version_.
  repeat match goal with
         | |- context [if ?b then _ else _] => destruct b
         | |- context [match parse ?x with _ => _ end] => destruct (parse x)
         | |- context [match pre ?x with _ => _ end] => destruct (pre x) as [[? ?]|]
         end; try discriminate; now intros [= <-].
Qed.

Lemma requested_error v nv e :
  requested v nv = Raise e -> mutation_error e = false.
Proof.
  unfold requested. destruct (str_in nv _);
    [apply bump_version_error | apply validate_version_error].
Qed.

Lemma check_git_status_error r e :
  check_git_status r = Raise e -> mutation_error e = false.
Proof.
  unfold check_git_status.
  destruct (Git.is_dirty r true true false); [now intros [= <-]|].
  destruct (nonempty _); [now intros [= <-] | discriminate].
Qed.

Lemma update_version_no_manifest_error nv t w :
  manifest_version w = None ->
  exists e, mutation_error e = false
            /\ forall d, update_version nv t d w = (Raise e, w).
Proof.
  unfold manifest_version. intros H.
  unfold update_version, load_pyproject_toml, bind, get_world, lift, ret, raise.
  fold (manifest_path w).
  destruct (file_get _ _) as [f|];
    [|eexists; split; [|reflexivity]; reflexivity].
  destruct (dict_get (content f) "project") as [[s0|n|items]|] eqn:Ep;
    cbn [toml_in];
    try (eexists; split; [|reflexivity]; reflexivity).
  - destruct (contains "version" s0);
      [|eexists; split; [|reflexivity]; reflexivity].
    unfold toml_item. cbn [dict_get String.eqb Ascii.eqb Bool.eqb].
    rewrite Ep. eexists; split; [|reflexivity]; reflexivity.
  - destruct (dict_get items "version") as [x|] eqn:Ev;
      [|eexists; split; [|reflexivity]; reflexivity].
    unfold toml_item. cbn [dict_get String.eqb Ascii.eqb Bool.eqb].
    rewrite Ep, Ev.
    destruct x; [discriminate | |];
      (eexists; split; [|reflexivity]; reflexivity).
Qed.

Lemma steps_done_early w e :
  mutation_error e = false -> steps_done w (Raise e, w).
Proof. destruct e; cbn; try discriminate; reflexivity. Qed.

Lemma mutate_steps w f items r s next t :
  repo w = Some r -> steps_done w (mutate w f items r s next t).
Proof.
  intros Hr. unfold mutate. destruct (writable f); [|reflexivity].
  unfold Git.create_tag.
  destruct (str_in _ _); cbn [steps_done].
  - split.
    + exists (to_str next). split; [apply manifest_version_rewritten|].
      unfold commits_of. cbn [repo]. now rewrite Hr.
    + unfold tags_of. cbn [repo]. now rewrite Hr.
  - repeat split.
    + apply manifest_version_rewritten.
    + unfold commits_of. cbn [repo]. now rewrite Hr.
    + unfold tags_of. cbn [repo]. now rewrite Hr.
Qed.

(** C1, as amended: a real run of [update_version] performs the manifest
    write, the commit and the tag in this order and undoes nothing.  When it
    returns, all three have happened.  When it raises anything but a
    [GitCommandError] (every validation failure, and a manifest that cannot
    be written), the environment is untouched: no write, no commit, no tag.
    When the tag cannot be created, the manifest write and the commit stay. *)
Theorem update_version_steps (new_version : string) (test_tag : bool)
    (w : World) :
  steps_done w (update_version new_version test_tag false w).
Proof.
  destruct (manifest_version w) as [s|] eqn:Hm.
  - apply manifest_version_inv in Hm as (f & items & Hf & Hp & Hv).
    rewrite (update_version_run _ _ _ _ _ _ _ Hf Hp Hv).
    destruct (validate_version s) as [current|e] eqn:E1;
      [|eapply steps_done_early, validate_version_error; eassumption].
    destruct (requested current new_version) as [next|e] eqn:E2;
      [|eapply steps_done_early, requested_error; eassumption].
    destruct (Key.le next current); [reflexivity|].
    destruct (repo w) as [r|] eqn:Hr; [|reflexivity].
    destruct (check_git_status r) as [[]|e] eqn:E3;
      [|eapply steps_done_early, check_git_status_error; eassumption].
    now apply mutate_steps.
  - destruct (update_version_no_manifest_error new_version test_tag w Hm)
      as (e & He & ->).
    now apply steps_done_early.
Qed.

(** C1, as stated, fails: with the tag [v1.0.1] already in the repository, a
    patch bump of [1.0.0] rewrites the manifest and commits, then raises at
    the tag; neither all three mutations nor none. *)
Lemma all_or_nothing_fails_on_existing_tag :
  ~ all_or_nothing "patch" false (sample_world "1.0.0" tagged_repo).
Proof.
  unfold all_or_nothing.
  set (out := update_version "patch" false false (sample_world "1.0.0" tagged_repo)).
  vm_compute in out. subst out. cbn [snd].
  intros [(_ & _ & (t & Ht)) | (_ & Hc & _)].
  - vm_compute in Ht. discriminate.
  - vm_compute in Hc. discriminate.
Qed.

End Mutation.

Section Versions.

Lemma count_dots_append a b : count_dots (a ++ b) = count_dots a + count_dots b.
Proof. induction a as [|c a IH]; cbn; [reflexivity | rewrite IH; lia]. Qed.

(** C2, as stated, fails: [1.0] has two release components only, is outside
    the grammar of the specification, and is accepted. *)
Lemma validate_version_accepts_two_components :
  (exists v, validate_version "1.0" = Ok v) /\ ~ spec_grammar "1.0".
Proof.
  split.
  - eexists. vm_compute. reflexivity.
  - intros (M & m & p & x & _ & _ & _ & _ & E).
    apply (f_equal count_dots) in E.
    rewrite !count_dots_append in E. cbn in E. lia.
Qed.

(** C2, as amended: [validate_version] succeeds exactly on the version
    strings of PEP 440, the language [pep440] of the pattern that
    [packaging] compiles, and every string outside this grammar raises the
    invalid-version-format error on that string.  The grammar contains
    every string numeric major.minor.patch optionally followed by one of
    the pre-release spellings alpha, a, beta, b, preview, pre, c, rc and
    digits, and on these the version returned has these components with
    the letter normalised.  It is not the grammar of the specification:
    [1.0] and [1.2.3post1] are accepted, the latter as a post-release, and
    [1.2.3xyz1], which has the shape the specification asks for, is
    rejected. *)
Theorem validate_version_grammar :
  (forall s : string, (exists v, validate_version s = Ok v) <-> pep440 s)
  /\ (forall s : string,
        ~ pep440 s ->
        validate_version s =
          Raise (UvbumpError ("Invalid version format: " ++ s)))
  /\ (forall (M m p : string) (pre : option (string * string)),
        Py.str_isdigit M = true -> Py.str_isdigit m = true ->
        Py.str_isdigit p = true -> pre_ok pre ->
        pep440 (M ++ "." ++ m ++ "." ++ p ++ pre_part pre)
        /\ validate_version (M ++ "." ++ m ++ "." ++ p ++ pre_part pre) =
           Ok (plain 0 [Py.int M; Py.int m; Py.int p]
                 (match pre with
                  | Some (l, n) => Some (pre_letter l, Py.int n)
                  | None => None
                  end)))
  /\ (exists v, validate_version "1.0" = Ok v /\ release v = [1; 0])
  /\ (exists v, validate_version "1.2.3post1" = Ok v
                /\ pre v = None /\ post v = Some ("post", 1))
  /\ spec_grammar "1.2.3xyz1"
  /\ validate_version "1.2.3xyz1" =
     Raise (UvbumpError "Invalid version format: 1.2.3xyz1").
Proof.
  assert (A : forall s : string,
                (exists v, validate_version s = Ok v) <-> pep440 s).
  { intros s. rewrite <- parse_pep440. unfold validate_version.
    destruct (parse s) as [v|]; split; intros (v' & E);
      try discriminate; eauto. }
  assert (B : forall (M m p : string) (pre : option (string * string)),
            Py.str_isdigit M = true -> Py.str_isdigit m = true ->
            Py.str_isdigit p = true -> pre_ok pre ->
            validate_version (M ++ "." ++ m ++ "." ++ p ++ pre_part pre) =
            Ok (plain 0 [Py.int M; Py.int m; Py.int p]
                  (match pre with
                   | Some (l, n) => Some (pre_letter l, Py.int n)
                   | None => None
                   end))).
  { intros M m p pre HM Hm Hp Hpre. unfold validate_version.
    pose proof (parse_release_pre None M [m; p] pre I HM
                  (Forall_cons _ Hm (Forall_cons _ Hp (Forall_nil _))) Hpre) as P.
    unfold release_part in P. cbn [epoch_part dotted append] in P.
    rewrite append_nil_r in P.
    replace (M ++ "." ++ m ++ "." ++ p ++ pre_part pre)
      with ((M ++ String "." (m ++ String "." p)) ++ pre_part pre).
    - now rewrite P.
    - rewrite append_assoc. cbn [append]. f_equal. f_equal.
      rewrite append_assoc. reflexivity. }
  split; [exact A|]. split; [|split; [|split; [|split; [|split]]]].
  - intros s N. unfold validate_version.
    destruct (parse s) as [v|] eqn:E; [|reflexivity].
    exfalso. apply N, parse_pep440. eauto.
  - intros M m p pre HM Hm Hp Hpre. split; [|now apply B].
    apply A. eexists. now apply B.
  - eexists. split; vm_compute; reflexivity.
  - eexists. split; [vm_compute; reflexivity|]. split; reflexivity.
  - exists "1", "2", "3", "xyz1". repeat split.
    right. exists "xyz", "1". repeat split. discriminate.
  - reflexivity.
Qed.

Lemma validate_version_grammar_witness :
  pre_ok (Some ("rc", "2"))
  /\ pep440 "1.2.3rc2"
  /\ validate_version "1.2.3rc2" = Ok (plain 0 [1; 2; 3] (Some ("rc", 2))).
Proof.
  assert (H : pre_ok (Some ("rc", "2"))).
  { split; [|reflexivity]. unfold pre_spellings. cbn [In]. tauto. }
  split; [exact H|].
  exact (proj1 (proj2 (proj2 validate_version_grammar))
           "1" "2" "3" (Some ("rc", "2")) eq_refl eq_refl eq_refl H).
Defined.

(** C3: the [bump] keyword, on every version the constructor returns.  A
    version that carries a pre-release segment [(label, number)] is taken to
    the same epoch and release, hence the same major, minor and micro, with
    pre-release [(label, number + 1)]; a pre-release without such a segment
    raises the missing-number error; a version that is not a pre-release
    gets the patch bump. *)
Theorem bump_auto (s : string) (current : Version) :
  parse s = Some current ->
  (forall l n, pre current = Some (l, n) ->
     exists next,
       bump_version current "bump" = Ok next
       /\ next = plain (epoch current) (release current) (Some (l, n + 1))
       /\ major next = major current /\ minor next = minor current
       /\ micro next = micro current /\ pre next = Some (l, n + 1))
  /\ (is_prerelease current = true -> pre current = None ->
      bump_version current "bump" =
      Raise (UvbumpError
               "Cannot bump pre-release version without pre-release number"))
  /\ (is_prerelease current = false ->
      bump_version current "bump" = bump_version current "patch"
      /\ bump_version current "patch" =
         Ok (plain 0 [major current; minor current; micro current + 1] None)).
Proof.
  intros Hs. apply parse_valid in Hs as [Hrel Hpre]. repeat split.
  - intros l n E. eexists. split; [|repeat split].
    apply bump_pre; auto. now rewrite E in Hpre.
  - apply bump_no_pre.
  - now apply bump_final.
  - apply bump_patch.
Qed.

Lemma bump_auto_witness :
  parse "1.2.3a4" = Some (plain 0 [1; 2; 3] (Some ("a", 4)))
  /\ bump_version (plain 0 [1; 2; 3] (Some ("a", 4))) "bump"
     = Ok (plain 0 [1; 2; 3] (Some ("a", 5))).
Proof.
  split; [reflexivity|].
  destruct (proj1 (bump_auto "1.2.3a4" (plain 0 [1; 2; 3] (Some ("a", 4)))
                     eq_refl) "a" 4 eq_refl) as (next & E & -> & _).
  exact E.
Defined.

(** C4: [major], [minor] and [patch] yield the release-only versions
    [(major+1, 0, 0)], [(major, minor+1, 0)] and [(major, minor, micro+1)],
    whatever pre-release state the current version has; a string that is
    none of the four keywords raises the unknown-bump-type error. *)
Theorem bump_keywords (v : Version) :
  bump_version v "major" = Ok (plain 0 [major v + 1; 0; 0] None)
  /\ bump_version v "minor" = Ok (plain 0 [major v; minor v + 1; 0] None)
  /\ bump_version v "patch" = Ok (plain 0 [major v; minor v; micro v + 1] None)
  /\ (forall e rel, is_prerelease (plain e rel None) = false)
  /\ (forall bump_type,
        str_in bump_type ["major"; "minor"; "patch"; "bump"] = false ->
        bump_version v bump_type =
        Raise (UvbumpError ("Unknown bump type: " ++ bump_type))).
Proof.
  repeat split.
  - apply bump_major.
  - apply bump_minor.
  - apply bump_patch.
  - apply bump_unknown.
Qed.

Lemma bump_keywords_witness :
  str_in "invalid" ["major"; "minor"; "patch"; "bump"] = false
  /\ bump_version (plain 0 [1; 0; 0] None) "invalid"
     = Raise (UvbumpError "Unknown bump type: invalid").
Proof.
  split; [reflexivity|].
  exact (proj2 (proj2 (proj2 (proj2 (bump_keywords (plain 0 [1; 0; 0] None)))))
           "invalid" eq_refl).
Defined.

End Versions.

Section Orchestration.

Lemma update_version_resolved nv t d w s current next :
  manifest_version w = Some s -> validate_version s = Ok current ->
  requested current nv = Ok next ->
  exists f items,
    file_get (files w) (path_str (manifest_path w)) = Some f /\
    update_version nv t d w =
    if Key.le next current then (Raise (not_advancing next current), w)
    else
      match repo w with
      | None => (Raise (UvbumpError "Not a git repository"), w)
      | Some r =>
          match check_git_status r with
          | Raise e => (Raise e, w)
          | Ok _ =>
              if d then (Ok (info_of w s next t), w)
              else mutate w f items r s next t
          end
      end.
Proof.
  intros Hm Hv Hr. apply manifest_version_inv in Hm as (f & items & Hf & Hp & Hi).
  exists f, items. split; [assumption|].
  now rewrite (update_version_run _ _ _ _ _ _ _ Hf Hp Hi), Hv, Hr.
Qed.

Lemma check_git_status_message r e :
  check_git_status r = Raise e ->
  e = UvbumpError "Repository has unstaged changes"
  \/ e = UvbumpError "Repository has staged changes".
Proof.
  unfold check_git_status.
  destruct (Git.is_dirty r true true false); [intros [= <-]; auto|].
  destruct (nonempty _); [intros [= <-]; auto | discriminate].
Qed.

Lemma mutate_not_uvbump w f items r s next t msg w' :
  mutate w f items r s next t <> (Raise (UvbumpError msg), w').
Proof.
  unfold mutate, Git.create_tag. destruct (writable f); [|discriminate].
  destruct (str_in _ _); discriminate.
Qed.

(** C5: the progression check.  [next <= current] is the negation of
    [next > current]; when [next] is not greater, [update_version] raises
    the version-not-advancing error and the environment is as it was, dry
    run or not; when [next] is greater, that error is not raised. *)
Theorem progression_check (new_version : string) (test_tag dry_run : bool)
    (w : World) (s : string) (current next : Version) :
  manifest_version w = Some s -> validate_version s = Ok current ->
  requested current new_version = Ok next ->
  Key.le next current = negb (Key.gt next current)
  /\ (Key.gt next current = false ->
      update_version new_version test_tag dry_run w
      = (Raise (not_advancing next current), w))
  /\ (Key.gt next current = true ->
      forall w', update_version new_version test_tag dry_run w
                 <> (Raise (not_advancing next current), w')).
Proof.
  intros Hm Hv Hr.
  destruct (update_version_resolved new_version test_tag dry_run w s current
              next Hm Hv Hr) as (f & items & _ & ->).
  rewrite Version_le_not_gt. repeat split.
  - intros ->. reflexivity.
  - intros -> w'. cbn [negb]. unfold not_advancing.
    destruct (repo w) as [r|]; [|discriminate].
    destruct (check_git_status r) as [[]|e] eqn:E.
    + destruct dry_run; [discriminate | apply mutate_not_uvbump].
    + apply check_git_status_message in E as [-> | ->]; discriminate.
Qed.

Lemma progression_check_witness :
  manifest_version (sample_world "1.0.0" clean_repo) = Some "1.0.0"
  /\ validate_version "1.0.0" = Ok (plain 0 [1; 0; 0] None)
  /\ requested (plain 0 [1; 0; 0] None) "1.0.0" = Ok (plain 0 [1; 0; 0] None)
  /\ Key.gt (plain 0 [1; 0; 0] None) (plain 0 [1; 0; 0] None) = false
  /\ update_version "1.0.0" false false (sample_world "1.0.0" clean_repo)
     = (Raise (UvbumpError
                 "New version 1.0.0 must be greater than current version 1.0.0"),
        sample_world "1.0.0" clean_repo).
Proof.
  repeat (split; [reflexivity|]).
  exact (proj1 (proj2 (progression_check "1.0.0" false false
                         (sample_world "1.0.0" clean_repo) "1.0.0"
                         (plain 0 [1; 0; 0] None) (plain 0 [1; 0; 0] None)
                         eq_refl eq_refl eq_refl)) eq_refl).
Defined.

Lemma mutate_error w f items r s next t :
  match mutate w f items r s next t with
  | (Ok _, _) => True
  | (Raise e, _) => mutation_error e = true
  end.
Proof.
  unfold mutate, Git.create_tag. destruct (writable f); [|reflexivity].
  destruct (str_in _ _); reflexivity.
Qed.

(** A dry run and a real run go through the same validations: what the one
    raises the other raises, on an untouched environment; when the dry run
    returns, the real run can only fail while it writes, commits or tags. *)
Lemma dry_run_same_validation (nv : string) (t : bool) (w : World) :
  match update_version nv t true w with
  | (Raise e, _) => update_version nv t false w = (Raise e, w)
  | (Ok _, _) =>
      match update_version nv t false w with
      | (Raise e, _) => mutation_error e = true
      | (Ok _, _) => True
      end
  end.
Proof.
  destruct (manifest_version w) as [s|] eqn:Hm.
  - apply manifest_version_inv in Hm as (f & items & Hf & Hp & Hi).
    rewrite !(update_version_run _ _ _ _ _ _ _ Hf Hp Hi).
    destruct (validate_version s) as [current|e]; [|reflexivity].
    destruct (requested current nv) as [next|e]; [|reflexivity].
    destruct (Key.le next current); [reflexivity|].
    destruct (repo w) as [r|]; [|reflexivity].
    destruct (check_git_status r) as [[]|e]; [|reflexivity].
    apply mutate_error.
  - destruct (update_version_no_manifest_error nv t w Hm) as (e & _ & E).
    now rewrite !E.
Qed.

(** C6 on the code: [is_dirty] is called with its defaults, which compare
    the index with [HEAD] as well, so any staged or unstaged change raises
    the unstaged-changes error and the staged-changes error is never
    reached; a repository whose only change is a staged file is reported as
    having unstaged changes.  The check itself does run in a dry run, with
    the same outcome as in a real run. *)
Theorem check_git_status_staged_only :
  (forall r : Repo,
     check_git_status r =
     if nonempty (staged r) || nonempty (unstaged r)
     then Raise (UvbumpError "Repository has unstaged changes")
     else Ok tt)
  /\ check_git_status staged_repo
     = Raise (UvbumpError "Repository has unstaged changes")
  /\ (forall dry_run,
        update_version "patch" false dry_run (sample_world "1.0.0" staged_repo)
        = (Raise (UvbumpError "Repository has unstaged changes"),
           sample_world "1.0.0" staged_repo))
  /\ (forall nv t w,
        match update_version nv t true w with
        | (Raise e, _) => update_version nv t false w = (Raise e, w)
        | (Ok _, _) =>
            match update_version nv t false w with
            | (Raise e, _) => mutation_error e = true
            | (Ok _, _) => True
            end
        end).
Proof.
  split; [|split; [|split]].
  - intros r. unfold check_git_status, Git.is_dirty, Git.index_diff_HEAD.
    destruct (staged r), (unstaged r); reflexivity.
  - reflexivity.
  - intros []; vm_compute; reflexivity.
  - apply dry_run_same_validation.
Qed.

(** C7: a dry run that returns leaves the environment as it was and
    reports the computed version: the new version string, the commit
    message equal to it, the tag equal to the prefix followed by it.  A real
    run from the same environment passes the same validations; it returns
    the same summary unless the write or the tag fails. *)
Theorem dry_run_frame (new_version : string) (test_tag : bool) (w w' : World)
    (info : VersionInfo) :
  update_version new_version test_tag true w = (Ok info, w') ->
  w' = w
  /\ (exists s current next,
        manifest_version w = Some s /\ validate_version s = Ok current
        /\ requested current new_version = Ok next
        /\ Key.gt next current = true
        /\ old_version info = s /\ Core.new_version info = to_str next)
  /\ commit_message info = Core.new_version info
  /\ tag info = (if test_tag then "test-" else "v") ++ Core.new_version info
  /\ (forall out w2,
        update_version new_version test_tag false w = (out, w2) ->
        out = Ok info
        \/ exists e, out = Raise e /\ mutation_error e = true).
Proof.
  intros H.
  destruct (manifest_version w) as [s|] eqn:Hm.
  2:{ destruct (update_version_no_manifest_error new_version test_tag w Hm)
        as (e & _ & E). rewrite E in H. discriminate. }
  pose proof Hm as Hm'.
  apply manifest_version_inv in Hm' as (f & items & Hf & Hp & Hi).
  rewrite (update_version_run _ _ _ _ _ _ _ Hf Hp Hi) in H.
  rewrite (update_version_run _ _ false _ _ _ _ Hf Hp Hi).
  destruct (validate_version s) as [current|e] eqn:Hv; [|discriminate].
  destruct (requested current new_version) as [next|e] eqn:Hr; [|discriminate].
  destruct (Key.le next current) eqn:Hle; [discriminate|].
  destruct (repo w) as [r|]; [|discriminate].
  destruct (check_git_status r) as [[]|e]; [|discriminate].
  injection H as <- <-.
  rewrite Version_le_not_gt in Hle. apply negb_false_iff in Hle.
  repeat split.
  - exists s, current, next. repeat split; auto.
  - cbn [tag info_of Core.new_version]. now destruct test_tag.
  - intros out w2. unfold mutate, Git.create_tag.
    destruct (writable f).
    + destruct (str_in _ _); intros [= <- <-]; eauto.
    + intros [= <- <-]. eauto.
Qed.

Lemma dry_run_frame_witness :
  let w := sample_world "1.0.0" clean_repo in
  let info := {| path := "/tmp/test_project/pyproject.toml";
                 old_version := "1.0.0"; new_version := "1.0.1";
                 commit_message := "1.0.1"; tag := "v1.0.1" |} in
  update_version "patch" false true w = (Ok info, w)
  /\ commit_message info = Core.new_version info
  /\ tag info = "v" ++ Core.new_version info
  /\ (forall out w2,
        update_version "patch" false false w = (out, w2) ->
        out = Ok info \/ exists e, out = Raise e /\ mutation_error e = true).
Proof.
  intros w info.
  assert (H : update_version "patch" false true w = (Ok info, w))
    by reflexivity.
  split; [exact H|].
  destruct (dry_run_frame "patch" false w w info H) as (_ & _ & Hc & Ht & Hr).
  exact (conj Hc (conj Ht Hr)).
Defined.

(** C8: the canonical string of major.minor.patch with an optional
    pre-release segment - decimal numbers, a letter in its normal form [a],
    [b] or [rc], no separator - is a valid version, and printing the parsed
    version gives the string back. *)
Theorem roundtrip_canonical (M m p : nat) (pre : option (string * nat)) :
  pre_normal pre ->
  exists v, validate_version (canonical M m p pre) = Ok v
            /\ v = plain 0 [M; m; p] pre
            /\ to_str v = canonical M m p pre.
Proof.
  intros Hpre. exists (plain 0 [M; m; p] pre).
  assert (E : to_str (plain 0 [M; m; p] pre) = canonical M m p pre).
  { rewrite to_str_plain. unfold canonical, epoch_str, release_str.
    cbn [plain epoch release map Py.join Nat.eqb append].
    repeat (rewrite append_assoc; cbn [append]). reflexivity. }
  repeat split; [|exact E].
  unfold validate_version. rewrite <- E.
  rewrite parse_to_str_plain; [reflexivity | discriminate | assumption].
Qed.

Lemma roundtrip_canonical_witness :
  pre_normal (Some ("rc", 2))
  /\ exists v, validate_version "1.2.3rc2" = Ok v
               /\ v = plain 0 [1; 2; 3] (Some ("rc", 2))
               /\ to_str v = "1.2.3rc2".
Proof.
  assert (H : pre_normal (Some ("rc", 2))).
  { unfold pre_normal, normal_letters. cbn [In]. tauto. }
  split; [exact H|].
  exact (roundtrip_canonical 1 2 3 (Some ("rc", 2)) H).
Defined.

(** C9: with a non-zero epoch, the keywords [major], [minor] and [patch]
    produce a version of epoch 0, which is strictly less than the current
    one; [update_version] with such a keyword therefore raises the
    version-not-advancing error and leaves the environment as it was. *)
Theorem epoch_bump_never_advances (current : Version) (bump_type : string) :
  epoch current <> 0 -> In bump_type ["major"; "minor"; "patch"] ->
  exists next,
    bump_version current bump_type = Ok next
    /\ epoch next = 0
    /\ Key.lt next current = true
    /\ Key.le next current = true
    /\ (forall w s test_tag dry_run,
          manifest_version w = Some s -> validate_version s = Ok current ->
          update_version bump_type test_tag dry_run w
          = (Raise (not_advancing next current), w)).
Proof.
  intros He Hk.
  assert (B : exists rel, bump_version current bump_type = Ok (plain 0 rel None)).
  { cbn [In] in Hk. destruct Hk as [<-|[<-|[<-|[]]]]; eexists;
      [apply bump_major | apply bump_minor | apply bump_patch]. }
  destruct B as (rel & B). exists (plain 0 rel None).
  assert (L : epoch (plain 0 rel None) < epoch current) by (cbn; lia).
  apply epoch_lt_le in L as (Hle & Hlt & Hgt).
  repeat split; auto.
  intros w s test_tag dry_run Hm Hv.
  assert (R : requested current bump_type = Ok (plain 0 rel None)).
  { unfold requested. cbn [In] in Hk.
    destruct Hk as [<-|[<-|[<-|[]]]]; exact B. }
  destruct (update_version_resolved bump_type test_tag dry_run w s current _
              Hm Hv R) as (f & items & _ & ->).
  now rewrite Hle.
Qed.

Lemma epoch_bump_never_advances_witness :
  epoch (plain 1 [2; 0; 0] None) <> 0
  /\ exists next,
    bump_version (plain 1 [2; 0; 0] None) "major" = Ok next
    /\ epoch next = 0
    /\ Key.lt next (plain 1 [2; 0; 0] None) = true
    /\ Key.le next (plain 1 [2; 0; 0] None) = true
    /\ (forall w s test_tag dry_run,
          manifest_version w = Some s ->
          validate_version s = Ok (plain 1 [2; 0; 0] None) ->
          update_version "major" test_tag dry_run w
          = (Raise (not_advancing next (plain 1 [2; 0; 0] None)), w)).
Proof.
  assert (H : epoch (plain 1 [2; 0; 0] None) <> 0) by discriminate.
  split; [exact H|].
  apply (epoch_bump_never_advances (plain 1 [2; 0; 0] None) "major" H).
  left. reflexivity.
Defined.

(** C10: the missing-number branch is reachable.  [1.0.0.dev1] is accepted;
    the version is a pre-release without a pre-release segment; [bump]
    raises on it, also through [update_version]. *)
Theorem dev_release_bump_raises :
  exists v,
    validate_version "1.0.0.dev1" = Ok v
    /\ is_prerelease v = true /\ pre v = None
    /\ bump_version v "bump" =
       Raise (UvbumpError
                "Cannot bump pre-release version without pre-release number")
    /\ update_version "bump" false false (sample_world "1.0.0.dev1" clean_repo)
       = (Raise (UvbumpError
                   "Cannot bump pre-release version without pre-release number"),
          sample_world "1.0.0.dev1" clean_repo).
Proof. eexists. repeat split; vm_compute; reflexivity. Qed.

End Orchestration.

(* ================================================================== *)
(** * Further properties of the code *)

Section Order.

#[export] Instance nat_PyEqRefl : PyEqRefl nat.
Proof. intros x. apply Nat.eqb_refl. Qed.

#[export] Instance string_PyEqRefl : PyEqRefl string.
Proof. intros x. apply String.eqb_refl. Qed.

#[export] Instance ext_PyEqRefl {A} `{PyEqRefl A} : PyEqRefl (ext A).
Proof. intros [|a|]; cbn; auto. Qed.

#[export] Instance pair_PyEqRefl {A B} `{PyEqRefl A} `{PyEqRefl B}
  : PyEqRefl (A * B).
Proof. intros [a b]. cbn. now rewrite !py_eq_refl. Qed.

#[export] Instance tuple_PyEqRefl {A} `{PyEqRefl A} : PyEqRefl (list A).
Proof.
  intros xs. induction xs as [|x xs IH]; cbn; [reflexivity|].
  now rewrite py_eq_refl.
Qed.

Lemma pair_le_refl {A B} `{PyEqRefl A} `{PyEqRefl B} (x : A * B) :
  py_le x x = true.
Proof. cbn. now rewrite !py_eq_refl. Qed.

Lemma Version_le_refl (v : Version) : Key.le v v = true.
Proof. unfold Key.le. apply pair_le_refl. Qed.

(** Trailing zeros of a release do not change its components. *)
Lemma nth_strip (rel : list nat) (i : nat) :
  nth i (List.rev (Key.dropwhile_zero (List.rev rel))) 0 = nth i rel 0.
Proof.
  induction rel as [|x rel IH] using rev_ind; [reflexivity|].
  rewrite rev_app_distr. cbn [List.rev List.app].
  destruct x as [|x].
  - cbn [Key.dropwhile_zero]. rewrite IH.
    destruct (Nat.lt_ge_cases i (List.length rel)) as [L|L].
    + now rewrite app_nth1.
    + rewrite app_nth2 by assumption. rewrite (nth_overflow rel) by assumption.
      destruct (i - List.length rel) as [|[|k]]; reflexivity.
  - cbn [Key.dropwhile_zero]. cbn [List.rev]. now rewrite rev_involutive.
Qed.

Lemma nth_positive_length (l : list nat) (i : nat) :
  0 < nth i l 0 -> i < List.length l.
Proof.
  intros H. destruct (Nat.lt_ge_cases i (List.length l)) as [L|L]; [assumption|].
  rewrite nth_overflow in H by assumption. lia.
Qed.

(** Tuples of integers: greater at the first position that differs. *)
Lemma tuple_gt_at (i : nat) :
  forall xs ys : list nat,
    i < List.length xs ->
    (forall j, j < i -> nth j xs 0 = nth j ys 0) ->
    nth i ys 0 < nth i xs 0 ->
    tuple_gt xs ys = true /\ tuple_eq xs ys = false.
Proof.
  induction i as [|i IH]; intros [|x xs] ys L E G; cbn in L; try lia.
  - destruct ys as [|y ys]; [split; reflexivity|]. cbn in G |- *.
    assert (N : (x =? y) = false) by (apply Nat.eqb_neq; lia).
    rewrite N. cbn. split; [apply Nat.ltb_lt; lia | reflexivity].
  - destruct ys as [|y ys]; [split; reflexivity|].
    pose proof (E 0 ltac:(lia)) as E0. cbn in E0. subst y.
    cbn [tuple_gt tuple_eq py_eq nat_PyOrd]. rewrite Nat.eqb_refl. cbn [negb andb].
    apply IH; [lia | | exact G].
    intros j Hj. apply (E (S j)). lia.
Qed.

(** Same epoch, and a release that is greater at its first difference. *)
Lemma release_gt (a b : Version) (i : nat) :
  epoch a = epoch b ->
  (forall j, j < i -> nth j (release a) 0 = nth j (release b) 0) ->
  nth i (release b) 0 < nth i (release a) 0 ->
  Key.gt a b = true.
Proof.
  intros He E G. unfold Key.gt, Key._key, Key._cmpkey.
  set (xs := List.rev (Key.dropwhile_zero (List.rev (release a)))).
  set (ys := List.rev (Key.dropwhile_zero (List.rev (release b)))).
  destruct (tuple_gt_at i xs ys) as [Hg Hn].
  - apply nth_positive_length. unfold xs. rewrite nth_strip. lia.
  - intros j Hj. unfold xs, ys. rewrite !nth_strip. now apply E.
  - unfold xs, ys. rewrite !nth_strip. exact G.
  - cbn [py_gt pair_PyOrd fst snd py_eq nat_PyOrd tuple_PyOrd].
    rewrite He, Nat.eqb_refl. cbn [negb]. rewrite Hn. cbn [negb]. exact Hg.
Qed.

Lemma tuple_eq_refl (xs : list nat) : tuple_eq xs xs = true.
Proof.
  induction xs as [|x xs IH]; cbn; [reflexivity|].
  now rewrite Nat.eqb_refl.
Qed.

(** Same epoch and release, and a pre-release number that is greater. *)
Lemma pre_gt (a b : Version) (l : string) (n m : nat) :
  epoch a = epoch b -> release a = release b ->
  pre a = Some (l, n) -> pre b = Some (l, m) -> m < n ->
  Key.gt a b = true.
Proof.
  intros He Hr Ha Hb L. unfold Key.gt, Key._key, Key._cmpkey.
  rewrite He, Hr, Ha, Hb.
  cbn [py_gt pair_PyOrd fst snd py_eq nat_PyOrd tuple_PyOrd ext_PyOrd string_PyOrd].
  rewrite Nat.eqb_refl.
  rewrite tuple_eq_refl. cbn [negb]. rewrite String.eqb_refl.
  assert (N : (n =? m) = false) by (apply Nat.eqb_neq; lia).
  rewrite N. cbn [negb andb]. apply Nat.ltb_lt. lia.
Qed.

End Order.

Section BumpOrder.

Lemma keyword_bump_advances_aux (current : Version) (bump_type : string) :
  epoch current = 0 -> In bump_type ["major"; "minor"; "patch"] ->
  exists next, bump_version current bump_type = Ok next
               /\ Key.gt next current = true.
Proof.
  intros He Hk. cbn [In] in Hk.
  destruct Hk as [<-|[<-|[<-|[]]]]; eexists;
    (split; [first [apply bump_major | apply bump_minor | apply bump_patch]|]).
  - apply (release_gt _ _ 0); [now rewrite He | intros j Hj; lia|].
    cbn. unfold major. lia.
  - apply (release_gt _ _ 1); [now rewrite He | |].
    + intros [|j] Hj; [reflexivity | lia].
    + cbn. unfold minor. lia.
  - apply (release_gt _ _ 2); [now rewrite He | |].
    + intros [|[|j]] Hj; [reflexivity | reflexivity | lia].
    + cbn. unfold micro. lia.
Qed.

(** X10: from a version of epoch 0, the keywords [major], [minor] and
    [patch] always produce a strictly greater version, so the progression
    check cannot reject them. *)
Theorem keyword_bump_advances (current : Version) (bump_type : string) :
  epoch current = 0 -> In bump_type ["major"; "minor"; "patch"] ->
  exists next,
    bump_version current bump_type = Ok next
    /\ Key.gt next current = true /\ Key.le next current = false.
Proof.
  intros He Hk.
  destruct (keyword_bump_advances_aux current bump_type He Hk)
    as (next & B & G).
  exists next. repeat split; auto.
  now rewrite Version_le_not_gt, G.
Qed.

Lemma keyword_bump_advances_witness :
  epoch (plain 0 [1; 2; 3] (Some ("a", 4))) = 0
  /\ exists next,
       bump_version (plain 0 [1; 2; 3] (Some ("a", 4))) "minor" = Ok next
       /\ Key.gt next (plain 0 [1; 2; 3] (Some ("a", 4))) = true
       /\ Key.le next (plain 0 [1; 2; 3] (Some ("a", 4))) = false.
Proof.
  split; [reflexivity|].
  apply keyword_bump_advances; [reflexivity|].
  right. left. reflexivity.
Defined.

(** X11: whenever the [bump] keyword returns a version for a pre-release,
    or for a version of epoch 0, that version is strictly greater than the
    current one. *)
Theorem auto_bump_advances (s : string) (current next : Version) :
  parse s = Some current ->
  bump_version current "bump" = Ok next ->
  is_prerelease current = true \/ epoch current = 0 ->
  Key.gt next current = true.
Proof.
  intros Hs B H. apply parse_valid in Hs as [Hrel Hpre].
  destruct (pre current) as [[l n]|] eqn:Ep.
  - rewrite (bump_pre current l n Hrel Ep Hpre) in B. injection B as <-.
    apply (pre_gt _ _ l (n + 1) n); auto. lia.
  - destruct (is_prerelease current) eqn:Ei.
    + rewrite (bump_no_pre current Ei Ep) in B. discriminate.
    + destruct H as [H|He]; [discriminate|].
      rewrite (bump_final current Ei), bump_patch in B. injection B as <-.
      apply (release_gt _ _ 2); [now rewrite He | |].
      * intros [|[|j]] Hj; [reflexivity | reflexivity | lia].
      * cbn. unfold micro. lia.
Qed.

Lemma auto_bump_advances_witness :
  parse "1!1.1.0a1" = Some (plain 1 [1; 1; 0] (Some ("a", 1)))
  /\ Key.gt (plain 1 [1; 1; 0] (Some ("a", 2)))
            (plain 1 [1; 1; 0] (Some ("a", 1))) = true.
Proof.
  split; [reflexivity|].
  apply (auto_bump_advances "1!1.1.0a1" (plain 1 [1; 1; 0] (Some ("a", 1))));
    [reflexivity | reflexivity | left; reflexivity].
Defined.

Lemma bump_version_plain (s : string) (current next : Version)
    (bump_type : string) :
  parse s = Some current -> bump_version current bump_type = Ok next ->
  exists e rel p, next = plain e rel p /\ rel <> [] /\ pre_normal p.
Proof.
  intros Hs B. apply parse_valid in Hs as [Hrel Hpre].
  destruct (String.eqb_spec bump_type "major") as [->|N1].
  { rewrite bump_major in B. injection B as <-.
    eexists _, _, _. split; [reflexivity | split; [discriminate | exact I]]. }
  destruct (String.eqb_spec bump_type "minor") as [->|N2].
  { rewrite bump_minor in B. injection B as <-.
    eexists _, _, _. split; [reflexivity | split; [discriminate | exact I]]. }
  destruct (String.eqb_spec bump_type "patch") as [->|N3].
  { rewrite bump_patch in B. injection B as <-.
    eexists _, _, _. split; [reflexivity | split; [discriminate | exact I]]. }
  destruct (String.eqb_spec bump_type "bump") as [->|N4].
  - destruct (pre current) as [[l n]|] eqn:Ep.
    + rewrite (bump_pre current l n Hrel Ep Hpre) in B. injection B as <-.
      eexists _, _, _. split; [reflexivity | split; [exact Hrel | exact Hpre]].
    + destruct (is_prerelease current) eqn:Ei.
      * rewrite (bump_no_pre current Ei Ep) in B. discriminate.
      * rewrite (bump_final current Ei), bump_patch in B. injection B as <-.
        eexists _, _, _. split; [reflexivity | split; [discriminate | exact I]].
  - rewrite bump_unknown in B; [discriminate|].
    cbn. apply String.eqb_neq in N1, N2, N3, N4. now rewrite N1, N2, N3, N4.
Qed.

(** X12: on a version the constructor returned, [bump_version] either
    returns a version or raises a [UvbumpError]: the [InvalidVersion] of its
    uncaught [Version(...)] calls never escapes. *)
Theorem bump_version_no_invalid_version (s : string) (current : Version)
    (bump_type : string) :
  parse s = Some current ->
  (exists next, bump_version current bump_type = Ok next)
  \/ (exists msg, bump_version current bump_type = Raise (UvbumpError msg)).
Proof.
  intros Hs. apply parse_valid in Hs as [Hrel Hpre].
  destruct (String.eqb_spec bump_type "major") as [->|N1];
    [rewrite bump_major; eauto|].
  destruct (String.eqb_spec bump_type "minor") as [->|N2];
    [rewrite bump_minor; eauto|].
  destruct (String.eqb_spec bump_type "patch") as [->|N3];
    [rewrite bump_patch; eauto|].
  destruct (String.eqb_spec bump_type "bump") as [->|N4].
  - destruct (pre current) as [[l n]|] eqn:Ep.
    + rewrite (bump_pre current l n Hrel Ep Hpre). eauto.
    + destruct (is_prerelease current) eqn:Ei.
      * rewrite (bump_no_pre current Ei Ep). eauto.
      * rewrite (bump_final current Ei), bump_patch. eauto.
  - rewrite bump_unknown; [eauto|].
    cbn. apply String.eqb_neq in N1, N2, N3, N4. now rewrite N1, N2, N3, N4.
Qed.

Lemma bump_version_no_invalid_version_witness :
  parse "1.0.0.dev1" = Some {| epoch := 0; release := [1; 0; 0];
                               dev := Some ("dev", 1); pre := None;
                               post := None; local := None |}
  /\ ((exists next, bump_version {| epoch := 0; release := [1; 0; 0];
                                   dev := Some ("dev", 1); pre := None;
                                   post := None; local := None |} "bump"
                    = Ok next)
      \/ (exists msg, bump_version {| epoch := 0; release := [1; 0; 0];
                                      dev := Some ("dev", 1); pre := None;
                                      post := None; local := None |} "bump"
                      = Raise (UvbumpError msg))).
Proof.
  split; [reflexivity|].
  apply (bump_version_no_invalid_version "1.0.0.dev1"). reflexivity.
Defined.

(** X13: the string written for a bumped version reads back as the same
    version: [validate_version (str next)] is [next] for every version
    [bump_version] returns, so the next run starts from what this one
    computed. *)
Theorem bump_result_reads_back (s : string) (current next : Version)
    (bump_type : string) :
  parse s = Some current -> bump_version current bump_type = Ok next ->
  validate_version (to_str next) = Ok next.
Proof.
  intros Hs B.
  destruct (bump_version_plain s current next bump_type Hs B)
    as (e & rel & p & -> & Hrel & Hp).
  unfold validate_version. now rewrite parse_to_str_plain.
Qed.

Lemma bump_result_reads_back_witness :
  parse "1.2.3a4" = Some (plain 0 [1; 2; 3] (Some ("a", 4)))
  /\ validate_version (to_str (plain 0 [1; 2; 3] (Some ("a", 5))))
     = Ok (plain 0 [1; 2; 3] (Some ("a", 5))).
Proof.
  split; [reflexivity|].
  apply (bump_result_reads_back "1.2.3a4" (plain 0 [1; 2; 3] (Some ("a", 4)))
           _ "bump"); reflexivity.
Defined.

(** X14: trailing zeros of the release do not count in the comparison: a
    version that only adds a [.0] component is not greater, in either
    direction. *)
Theorem trailing_zero_not_greater (a b : Version) :
  epoch b = epoch a -> release b = (release a ++ [0])%list ->
  pre b = pre a -> post b = post a -> dev b = dev a -> local b = local a ->
  Key.le b a = true /\ Key.le a b = true /\ Key.eq a b = true.
Proof.
  intros He Hr Hp Hpo Hd Hl.
  assert (K : Key._key b = Key._key a).
  { unfold Key._key, Key._cmpkey. rewrite He, Hr, Hp, Hpo, Hd, Hl.
    rewrite rev_app_distr. reflexivity. }
  unfold Key.le, Key.eq. rewrite K.
  repeat split; try apply pair_le_refl.
  apply (py_eq_refl (A := Key.CmpKey)).
Qed.

Lemma trailing_zero_not_greater_witness :
  Key.le (plain 0 [1; 0; 0; 0] None) (plain 0 [1; 0; 0] None) = true
  /\ Key.le (plain 0 [1; 0; 0] None) (plain 0 [1; 0; 0; 0] None) = true
  /\ Key.eq (plain 0 [1; 0; 0] None) (plain 0 [1; 0; 0; 0] None) = true.
Proof.
  apply trailing_zero_not_greater; reflexivity.
Defined.

End BumpOrder.

Section Files.

Lemma dict_get_set_other (d : dict) (key k : string) (v : toml) :
  k <> key -> dict_get (dict_set d key v) k = dict_get d k.
Proof.
  intros N. induction d as [|[k0 v0] d IH]; cbn [dict_set dict_get].
  - destruct (String.eqb_spec key k); [congruence | reflexivity].
  - destruct (String.eqb_spec k0 key) as [->|N0]; cbn [dict_get].
    + destruct (String.eqb_spec key k); [congruence | reflexivity].
    + now rewrite IH.
Qed.

Lemma file_get_set_other (fs : list (string * File)) (p q : string) (f : File) :
  q <> p -> file_get (file_set fs p f) q = file_get fs q.
Proof.
  intros N. induction fs as [|[p0 f0] fs IH]; cbn [file_set file_get].
  - destruct (String.eqb_spec p q); [congruence | reflexivity].
  - destruct (String.eqb_spec p0 p) as [->|N0]; cbn [file_get].
    + destruct (String.eqb_spec p q); [congruence | reflexivity].
    + now rewrite IH.
Qed.

End Files.

Section Validation.

(** X1: without the manifest file, or without [project.version] in it,
    [update_version] raises the matching [UvbumpError] whatever the request
    and the repository are, and changes nothing. *)
Theorem manifest_errors (new_version : string) (test_tag dry_run : bool)
    (w : World) :
  (file_get (files w) (path_str (manifest_path w)) = None ->
   update_version new_version test_tag dry_run w
   = (Raise (UvbumpError ("pyproject.toml not found in " ++ cwd w)), w))
  /\ (forall f,
        file_get (files w) (path_str (manifest_path w)) = Some f ->
        dict_get (content f) "project" = None
        \/ (exists items, dict_get (content f) "project" = Some (TTable items)
                          /\ dict_get items "version" = None) ->
        update_version new_version test_tag dry_run w
        = (Raise (UvbumpError "project.version not found in pyproject.toml"),
           w)).
Proof.
  split.
  - intros H.
    unfold update_version, load_pyproject_toml, bind, get_world, lift, ret, raise.
    fold (manifest_path w). now rewrite H.
  - intros f Hf H.
    unfold update_version, load_pyproject_toml, bind, get_world, lift, ret, raise.
    fold (manifest_path w). rewrite Hf.
    destruct H as [H | (items & Hp & Hv)].
    + now rewrite H.
    + rewrite Hp. cbn [toml_in]. now rewrite Hv.
Qed.

Lemma manifest_errors_witness :
  update_version "patch" false false
    {| cwd := "/tmp/empty_project"; files := []; repo := None |}
  = (Raise (UvbumpError "pyproject.toml not found in /tmp/empty_project"),
     {| cwd := "/tmp/empty_project"; files := []; repo := None |}).
Proof.
  exact (proj1 (manifest_errors "patch" false false
                  {| cwd := "/tmp/empty_project"; files := []; repo := None |})
           eq_refl).
Defined.

Lemma keyword_not_version (s : string) :
  str_in s ["major"; "minor"; "patch"; "bump"] = true -> parse s = None.
Proof.
  cbn. rewrite !orb_true_iff.
  intros [H|[H|[H|[H|H]]]]; try discriminate;
    apply String.eqb_eq in H; subst; reflexivity.
Qed.

(** X2: version strings are checked before the repository is looked at.  A
    manifest version that is not a valid version, and a request that is
    neither a keyword nor a valid version, raise the invalid-version-format
    error on that string, whatever the repository is (even none), and
    nothing is changed. *)
Theorem invalid_version_reported_first (new_version : string)
    (test_tag dry_run : bool) (w : World) (s : string) :
  manifest_version w = Some s ->
  (parse s = None ->
   update_version new_version test_tag dry_run w
   = (Raise (UvbumpError ("Invalid version format: " ++ s)), w))
  /\ (forall current,
        parse s = Some current ->
        str_in new_version ["major"; "minor"; "patch"; "bump"] = false ->
        parse new_version = None ->
        update_version new_version test_tag dry_run w
        = (Raise (UvbumpError ("Invalid version format: " ++ new_version)),
           w)).
Proof.
  intros Hm. apply manifest_version_inv in Hm as (f & items & Hf & Hp & Hi).
  rewrite (update_version_run _ _ _ _ _ _ _ Hf Hp Hi).
  unfold validate_version, requested. split.
  - intros ->. reflexivity.
  - intros current -> -> H. unfold validate_version. now rewrite H.
Qed.

Lemma invalid_version_reported_first_witness :
  manifest_version {| cwd := "/p";
                      files := [("/p/pyproject.toml", sample_manifest "1.0.0")];
                      repo := None |} = Some "1.0.0"
  /\ update_version "invalid-version" false false
       {| cwd := "/p";
          files := [("/p/pyproject.toml", sample_manifest "1.0.0")];
          repo := None |}
     = (Raise (UvbumpError "Invalid version format: invalid-version"),
        {| cwd := "/p";
           files := [("/p/pyproject.toml", sample_manifest "1.0.0")];
           repo := None |}).
Proof.
  split; [reflexivity|].
  exact (proj2 (invalid_version_reported_first "invalid-version" false false
                  {| cwd := "/p";
                     files := [("/p/pyproject.toml", sample_manifest "1.0.0")];
                     repo := None |} "1.0.0" eq_refl)
           (plain 0 [1; 0; 0] None) eq_refl eq_refl eq_refl).
Defined.

(** X3: outside a git repository, a request that passes the version checks
    raises the not-a-git-repository error, in a dry run too, and nothing is
    changed. *)
Theorem not_a_git_repository (new_version : string) (test_tag dry_run : bool)
    (w : World) (s : string) (current next : Version) :
  manifest_version w = Some s -> validate_version s = Ok current ->
  requested current new_version = Ok next -> Key.gt next current = true ->
  repo w = None ->
  update_version new_version test_tag dry_run w
  = (Raise (UvbumpError "Not a git repository"), w).
Proof.
  intros Hm Hv Hr Hg Hn.
  apply manifest_version_inv in Hm as (f & items & Hf & Hp & Hi).
  rewrite (update_version_run _ _ _ _ _ _ _ Hf Hp Hi), Hv, Hr.
  now rewrite Version_le_not_gt, Hg, Hn.
Qed.

Lemma not_a_git_repository_witness :
  update_version "patch" false false
    {| cwd := "/p"; files := [("/p/pyproject.toml", sample_manifest "1.0.0")];
       repo := None |}
  = (Raise (UvbumpError "Not a git repository"),
     {| cwd := "/p"; files := [("/p/pyproject.toml", sample_manifest "1.0.0")];
        repo := None |}).
Proof.
  exact (not_a_git_repository "patch" false false
           {| cwd := "/p";
              files := [("/p/pyproject.toml", sample_manifest "1.0.0")];
              repo := None |} "1.0.0"
           (plain 0 [1; 0; 0] None) (plain 0 [1; 0; 1] None)
           eq_refl eq_refl eq_refl eq_refl eq_refl).
Defined.

(** X4: asking for the version the manifest already holds is rejected:
    with the manifest's own version string as the request, the progression
    check raises, whatever the repository is. *)
Theorem same_version_rejected (test_tag dry_run : bool) (w : World)
    (s : string) (current : Version) :
  manifest_version w = Some s -> validate_version s = Ok current ->
  update_version s test_tag dry_run w
  = (Raise (not_advancing current current), w).
Proof.
  intros Hm Hv.
  apply manifest_version_inv in Hm as (f & items & Hf & Hp & Hi).
  rewrite (update_version_run _ _ _ _ _ _ _ Hf Hp Hi), Hv.
  assert (K : str_in s ["major"; "minor"; "patch"; "bump"] = false).
  { destruct (str_in s _) eqn:E; [|reflexivity].
    apply keyword_not_version in E. unfold validate_version in Hv.
    rewrite E in Hv. discriminate. }
  unfold requested. rewrite K, Hv. now rewrite Version_le_refl.
Qed.

Lemma same_version_rejected_witness :
  update_version "1.0.0" false false (sample_world "1.0.0" clean_repo)
  = (Raise (not_advancing (plain 0 [1; 0; 0] None) (plain 0 [1; 0; 0] None)),
     sample_world "1.0.0" clean_repo).
Proof.
  exact (same_version_rejected false false (sample_world "1.0.0" clean_repo)
           "1.0.0" (plain 0 [1; 0; 0] None) eq_refl eq_refl).
Defined.

Lemma dry_run_world (nv : string) (t : bool) (w : World) :
  snd (update_version nv t true w) = w.
Proof.
  destruct (manifest_version w) as [s|] eqn:Hm.
  - apply manifest_version_inv in Hm as (f & items & Hf & Hp & Hi).
    rewrite (update_version_run _ _ _ _ _ _ _ Hf Hp Hi).
    destruct (validate_version s) as [current|e]; [|reflexivity].
    destruct (requested current nv) as [next|e]; [|reflexivity].
    destruct (Key.le next current); [reflexivity|].
    destruct (repo w) as [r|]; [|reflexivity].
    destruct (check_git_status r) as [[]|e]; reflexivity.
  - destruct (update_version_no_manifest_error nv t w Hm) as (e & _ & E).
    now rewrite E.
Qed.

(** X6: a dry run never changes the environment, whether it returns or
    raises, and it raises exactly what the real run raises before it
    starts to write. *)
Theorem dry_run_changes_nothing (new_version : string) (test_tag : bool)
    (w : World) :
  snd (update_version new_version test_tag true w) = w
  /\ match fst (update_version new_version test_tag true w) with
     | Raise e => update_version new_version test_tag false w = (Raise e, w)
     | Ok _ => True
     end.
Proof.
  split; [apply dry_run_world|].
  pose proof (dry_run_same_validation new_version test_tag w) as H.
  destruct (update_version new_version test_tag true w) as [[info|e] w1];
    [exact I | exact H].
Qed.

End Validation.

Section RealRun.

Lemma check_git_status_ok (r : Repo) :
  check_git_status r = Ok tt <-> staged r = [] /\ unstaged r = [].
Proof.
  unfold check_git_status, Git.is_dirty, Git.index_diff_HEAD.
  destruct (staged r), (unstaged r); cbn; split;
    try discriminate; try tauto; intros [? ?]; discriminate.
Qed.

Lemma committed_clean (r : Repo) (next : Version) :
  unstaged r = [] ->
  staged (committed r next) = [] /\ unstaged (committed r next) = [].
Proof.
  intros H. unfold committed, Git.index_commit, Git.index_add, Git.touch.
  cbn [staged unstaged untracked]. rewrite H. split; [reflexivity|].
  destruct (str_in "pyproject.toml" (untracked r)); reflexivity.
Qed.

Lemma create_tag_lists (name : string) (r r' : Repo) :
  Git.create_tag name r = Ok r' ->
  staged r' = staged r /\ unstaged r' = unstaged r
  /\ untracked r' = untracked r /\ commits r' = commits r
  /\ tags r' = name :: tags r.
Proof.
  unfold Git.create_tag. destruct (str_in name (tags r)); [discriminate|].
  intros [= <-]. repeat split.
Qed.

(** A real run that returns went through [mutate] from a clean repository. *)
Lemma real_run_inv nv t w info w' :
  update_version nv t false w = (Ok info, w') ->
  exists f items r s current next,
    file_get (files w) (path_str (manifest_path w)) = Some f
    /\ dict_get (content f) "project" = Some (TTable items)
    /\ dict_get items "version" = Some (TStr s)
    /\ validate_version s = Ok current
    /\ requested current nv = Ok next
    /\ Key.gt next current = true
    /\ repo w = Some r /\ check_git_status r = Ok tt
    /\ mutate w f items r s next t = (Ok info, w').
Proof.
  intros H.
  destruct (manifest_version w) as [s|] eqn:Hm.
  2:{ destruct (update_version_no_manifest_error nv t w Hm) as (e & _ & E).
      rewrite E in H. discriminate. }
  apply manifest_version_inv in Hm as (f & items & Hf & Hp & Hi).
  rewrite (update_version_run _ _ _ _ _ _ _ Hf Hp Hi) in H.
  destruct (validate_version s) as [current|e] eqn:Hv; [|discriminate].
  destruct (requested current nv) as [next|e] eqn:Hr; [|discriminate].
  destruct (Key.le next current) eqn:Hle; [discriminate|].
  destruct (repo w) as [r|] eqn:Hrepo; [|discriminate].
  destruct (check_git_status r) as [[]|e] eqn:Hc; [|discriminate].
  rewrite Version_le_not_gt in Hle. apply negb_false_iff in Hle.
  exists f, items, r, s, current, next. repeat split; auto.
Qed.



(** X8: a real run that returns leaves the repository clean:
    [check_git_status] passes on it, so the next run is not blocked by the
    change this one made. *)
Theorem success_leaves_clean (new_version : string) (test_tag : bool)
    (w w' : World) (info : VersionInfo) :
  update_version new_version test_tag false w = (Ok info, w') ->
  exists r', repo w' = Some r' /\ check_git_status r' = Ok tt.
Proof.
  intros H.
  apply real_run_inv in H
    as (f & items & r & s & current & next & _ & _ & _ & _ & _ & _ & _ & Hc & H).
  apply check_git_status_ok in Hc as [Hs Hu].
  unfold mutate in H. destruct (writable f); [|discriminate].
  destruct (Git.create_tag _ _) as [r'|e] eqn:E; [|discriminate].
  injection H as <- <-. exists r'. split; [reflexivity|].
  apply create_tag_lists in E as (Es & Eu & _).
  destruct (committed_clean r next Hu) as [Cs Cu].
  apply check_git_status_ok. split; congruence.
Qed.

Lemma success_leaves_clean_witness :
  exists r',
    repo (snd (update_version "patch" false false
                 (sample_world "1.0.0" clean_repo))) = Some r'
    /\ check_git_status r' = Ok tt.
Proof.
  apply (success_leaves_clean "patch" false (sample_world "1.0.0" clean_repo)
           _ (info_of (sample_world "1.0.0" clean_repo) "1.0.0"
                (plain 0 [1; 0; 1] None) false)).
  reflexivity.
Defined.

(** X9: what a real run that returns leaves alone.  The working directory
    and every file other than the manifest are as before, and the document
    written to the manifest differs from the one read only in
    [project.version]: every other key of the document and of its
    [project] table has the value it had. *)
Theorem success_frame (new_version : string) (test_tag : bool)
    (w w' : World) (info : VersionInfo) :
  update_version new_version test_tag false w = (Ok info, w') ->
  cwd w' = cwd w
  /\ (forall q, q <> path_str (manifest_path w) ->
                file_get (files w') q = file_get (files w) q)
  /\ exists d d' items items',
       manifest_content w = Some d /\ manifest_content w' = Some d'
       /\ project_items d = Some items /\ project_items d' = Some items'
       /\ (forall k, k <> "project" -> dict_get d' k = dict_get d k)
       /\ (forall k, k <> "version" -> dict_get items' k = dict_get items k).
Proof.
  intros H.
  apply real_run_inv in H
    as (f & items & r & s & current & next & Hf & Hp & Hi & _ & _ & _ & _ & _ & H).
  unfold mutate in H. destruct (writable f); [|discriminate].
  destruct (Git.create_tag _ _) as [r'|e]; [|discriminate].
  injection H as <- <-. cbn [cwd files]. split; [reflexivity|]. split.
  - intros q N. now apply file_get_set_other.
  - exists (content f), (content (rewritten f items next)), items,
      (dict_set items "version" (TStr (to_str next))).
    unfold manifest_content, manifest_path. cbn [cwd files].
    fold (manifest_path w). rewrite Hf, file_get_set.
    unfold project_items, rewritten. cbn [content option_map].
    rewrite Hp, dict_get_set.
    repeat split.
    + intros k N. now apply dict_get_set_other.
    + intros k N. now apply dict_get_set_other.
Qed.

Lemma success_frame_witness :
  cwd (snd (update_version "patch" false false
              (sample_world "1.0.0" clean_repo))) = "/tmp/test_project".
Proof.
  exact (proj1 (success_frame "patch" false
                  (sample_world "1.0.0" clean_repo) _
                  (info_of (sample_world "1.0.0" clean_repo) "1.0.0"
                     (plain 0 [1; 0; 1] None) false)
                  eq_refl)).
Defined.

End RealRun.

Section Chain.

(** X15: keyword runs chain.  After a real run with [major], [minor] or
    [patch] has returned, the manifest holds the reported new version, this
    string reads back as a version of epoch 0, and a further [major],
    [minor] or [patch] on it passes the progression check again. *)
Theorem keyword_runs_chain (bump_type : string) (test_tag : bool)
    (w w' : World) (info : VersionInfo) :
  update_version bump_type test_tag false w = (Ok info, w') ->
  In bump_type ["major"; "minor"; "patch"] ->
  exists next,
    manifest_version w' = Some (Core.new_version info)
    /\ validate_version (Core.new_version info) = Ok next
    /\ epoch next = 0
    /\ forall again, In again ["major"; "minor"; "patch"] ->
         exists next2, requested next again = Ok next2
                       /\ Key.le next2 next = false.
Proof.
  intros H Hk.
  apply real_run_inv in H
    as (f & items & r & s & current & next & Hf & Hp & Hi & Hv & Hr & _ & _ & _ & H).
  assert (K : forall kw, In kw ["major"; "minor"; "patch"] ->
                         forall v, requested v kw = bump_version v kw).
  { intros kw Hin v. unfold requested. cbn [In] in Hin.
    destruct Hin as [<-|[<-|[<-|[]]]]; reflexivity. }
  rewrite (K _ Hk) in Hr.
  assert (P : exists rel, next = plain 0 rel None /\ rel <> []).
  { cbn [In] in Hk. destruct Hk as [<-|[<-|[<-|[]]]];
      [rewrite bump_major in Hr | rewrite bump_minor in Hr
      | rewrite bump_patch in Hr];
      injection Hr as <-; eexists; (split; [reflexivity | discriminate]). }
  destruct P as (rel & -> & Hrel).
  unfold mutate in H. destruct (writable f); [|discriminate].
  destruct (Git.create_tag _ _) as [r'|e]; [|discriminate].
  injection H as <- <-.
  exists (plain 0 rel None). cbn [Core.new_version info_of].
  split; [apply manifest_version_rewritten|]. split; [|split].
  - unfold validate_version.
    rewrite parse_to_str_plain; [reflexivity | assumption | exact I].
  - reflexivity.
  - intros again Ha. rewrite (K _ Ha).
    destruct (keyword_bump_advances_aux (plain 0 rel None) again eq_refl Ha)
      as (next2 & B & G).
    exists next2. split; [exact B|]. now rewrite Version_le_not_gt, G.
Qed.

Lemma keyword_runs_chain_witness :
  exists next,
    manifest_version (snd (update_version "minor" false false
                             (sample_world "1.0.0" clean_repo)))
    = Some "1.1.0"
    /\ validate_version "1.1.0" = Ok next
    /\ epoch next = 0
    /\ forall again, In again ["major"; "minor"; "patch"] ->
         exists next2, requested next again = Ok next2
                       /\ Key.le next2 next = false.
Proof.
  apply (keyword_runs_chain "minor" false (sample_world "1.0.0" clean_repo) _
           (info_of (sample_world "1.0.0" clean_repo) "1.0.0"
              (plain 0 [1; 1; 0] None) false) eq_refl).
  right. left. reflexivity.
Defined.

End Chain.
